(** * dash_share: the layout rewriter, the state codec and the share protocol

    A shallow embedding of [dash_share/share.py], of the older rewriter of
    [dash_share/modify.py] and of the strategy of [examples/file_share.py],
    and the properties of their specification.

    Conventions of the embedding.
    - A Python [str] is a Rocq [string] holding its UTF-8 bytes.  The string
      operations the code uses ([replace] of one ASCII character, [split] on
      an ASCII character, substring test) act the same on code points and on
      UTF-8 bytes.
    - A layout is a JSON document ([json.load], or the state Dash hands to a
      callback): a tree without shared sub-objects.  The code mutates the tree
      in place and returns it; on a tree without sharing that is the same as
      rebuilding it, which is what the functions here do.
    - A [dict] is an association list in insertion order; [d[k] = v] keeps the
      place of an existing key and appends a new one, as in Python.
    - Exceptions are values of [exn]; no function of the module catches one,
      except [FileShare.load] and its [FileNotFoundError].  The interpreter's
      recursion limit is not modelled.
    - The library functions the module calls ([json.dumps], [shake_128],
      [urllib.parse.parse_qs]) are written out after CPython 3.11.
    - The host is a POSIX system with the limits of Linux.  [open] for
      reading is written out for the paths the code spells, [./share/...]:
      a NUL byte, a name or a path that is too long, a path through a file
      and a missing file each raise their own exception. *)

From Stdlib Require Import ZArith Lia Ascii DecimalString.
From stdpp Require Import base option list strings gmap.

Set Warnings "-register-all".

(** ** Python values *)

Inductive exn : Set :=
| ValueError | KeyError | TypeError | AttributeError | IndexError
| OverflowError | MemoryError | FileNotFoundError
| OSError | NotADirectoryError | IsADirectoryError.

(** The result of running a piece of Python: a value, an exception, or
    [OutOfFuel] when a recursion bounded by fuel was given too little. *)
Inductive outcome (A : Type) : Type :=
| Ok (a : A)
| Raise (e : exn)
| OutOfFuel.
Arguments Ok {A} a.
Arguments Raise {A} e.
Arguments OutOfFuel {A}.

Definition outcome_bind {A B} (f : A → outcome B) (m : outcome A) : outcome B :=
  match m with
  | Ok a => f a
  | Raise e => Raise e
  | OutOfFuel => OutOfFuel
  end.

#[global] Instance outcome_ret : MRet outcome := fun _ a => Ok a.
#[global] Instance outcome_mbind : MBind outcome := fun _ _ f m => outcome_bind f m.

(** JSON values.  A float is kept as the literal [json.dumps] prints for it:
    the code never computes with one. *)
Inductive json : Type :=
| JNull
| JBool (b : bool)
| JInt (z : Z)
| JFloat (repr : string)
| JStr (s : string)
| JList (l : list json)
| JDict (d : list (string * json)).

Abbreviation pydict := (list (string * json)).

(** [**kwargs]: component id ↦ props to merge. *)
Abbreviation patches := (list (string * pydict)).

(** [bool(x)] *)
Definition truthy (x : json) : bool :=
  match x with
  | JNull => false
  | JBool b => b
  | JInt z => negb (z =? 0)%Z
  | JFloat r => negb (String.eqb r "0.0" || String.eqb r "-0.0")
  | JStr s => negb (String.eqb s "")
  | JList l => match l with [] => false | _ => true end
  | JDict d => match d with [] => false | _ => true end
  end.

(** ** Strings *)

(** [s.replace(old, new)] for a one-character [old]. *)
Fixpoint str_replace (old : ascii) (new : string) (s : string) : string :=
  match s with
  | EmptyString => EmptyString
  | String c r =>
      if Ascii.eqb c old then new +:+ str_replace old new r
      else String c (str_replace old new r)
  end.

(** [needle in hay] on strings. *)
Fixpoint str_contains (needle hay : string) : bool :=
  String.prefix needle hay ||
  match hay with
  | EmptyString => false
  | String _ r => str_contains needle r
  end.

(** ** Dictionaries *)

Section Dict.
Context {V : Type}.

(** [d.get(k)] *)
Fixpoint dict_get (k : string) (d : list (string * V)) : option V :=
  match d with
  | [] => None
  | (k', v) :: r => if String.eqb k' k then Some v else dict_get k r
  end.

(** [k in d] *)
Definition dict_contains (k : string) (d : list (string * V)) : bool :=
  match dict_get k d with Some _ => true | None => false end.

(** [d[k] = v] *)
Fixpoint dict_set (d : list (string * V)) (k : string) (v : V) : list (string * V) :=
  match d with
  | [] => [(k, v)]
  | (k', v') :: r =>
      if String.eqb k' k then (k', v) :: r else (k', v') :: dict_set r k v
  end.

(** [d.update(other)] *)
Definition dict_update (d other : list (string * V)) : list (string * V) :=
  fold_left (fun acc kv => dict_set acc kv.1 kv.2) other d.
End Dict.

(** [x in container], for the one needle the code uses it with on a value of
    unknown type. *)
Definition py_in (needle : string) (container : json) : outcome bool :=
  match container with
  | JDict d => Ok (dict_contains needle d)
  | JStr s => Ok (str_contains needle s)
  | JList l =>
      Ok (existsb (fun x => match x with JStr s => String.eqb needle s | _ => false end) l)
  | _ => Raise TypeError
  end.

(** ** The tree rewriter: [update_component_state] *)

(** [id.replace("-", "_")] *)
Definition normalize_id (id : string) : string := str_replace "-"%char "_" id.

(** [x.replace("-", "_")] on a value of unknown type. *)
Definition py_replace_dash (x : json) : outcome string :=
  match x with
  | JStr s => Ok (normalize_id s)
  | _ => Raise AttributeError
  end.

Section Rewriter.
(** The recursive call [update_component_state(_, None, **kwargs)]. *)
Variable rec : json → outcome json.
Variable kwargs : patches.

(** The [isinstance(layout, dict)] branch. *)
Definition update_dict (layout : pydict) : outcome json :=
  layout ←
    (match dict_get "children" layout with
     | Some c => r ← rec c; Ok (dict_set layout "children" r)
     | None => Ok layout
     end);
  layout ←
    (match dict_get "props" layout with
     | Some p => r ← rec p; Ok (dict_set layout "props" r)
     | None => Ok layout
     end);
  match dict_get "id" layout with
  | Some i =>
      id ← py_replace_dash i;
      match dict_get id kwargs with
      | Some patch => Ok (JDict (dict_update layout patch))
      | None => Ok (JDict layout)
      end
  | None => Ok (JDict layout)
  end.

(** [item["props"]] *)
Definition item_props (item : json) : outcome json :=
  match item with
  | JDict it =>
      match dict_get "props" it with
      | Some p => Ok p
      | None => Raise KeyError
      end
  | _ => Raise TypeError
  end.

(** The first [if] of the loop body: [children] is a non-empty dict. *)
Definition update_dict_children (children : pydict) : outcome pydict :=
  nested ← py_in "children" (default (JStr "") (dict_get "props" children));
  if nested || dict_contains "props" children then
    match dict_get "props" children with
    | Some cp => r ← rec cp; Ok (dict_set children "props" r)
    | None => Raise KeyError
    end
  else if dict_contains "children" children then
    match dict_get "children" children with
    | Some cc => r ← rec cc; Ok (dict_set children "children" r)
    | None => Raise KeyError
    end
  else Raise ValueError.

(** The end of the loop body: the id is looked up, and the item is appended
    with its props, merged with the patch when there is one. *)
Definition patch_item (it props : pydict) : outcome json :=
  id ← py_replace_dash (default (JStr "") (dict_get "id" props));
  match dict_get id kwargs with
  | None => Ok (JDict (dict_set it "props" (JDict props)))
  | Some patch =>
      Ok (JDict (dict_set it "props" (JDict (dict_update props patch))))
  end.

(** The body of [for item in layout]: the item as it is appended. *)
Definition update_item (item : json) : outcome json :=
  props ← item_props item;
  match props, item with
  | JDict props, JDict it =>
      let children := default JNull (dict_get "children" props) in
      props ←
        (match children with
         | JDict ((_ :: _) as c) =>
             c' ← update_dict_children c;
             Ok (dict_set props "children" (JDict c'))
         | JList (_ :: _) =>
             r ← rec children; Ok (dict_set props "children" r)
         | _ => Ok props
         end);
      patch_item it props
  | _, _ => Raise AttributeError
  end.

(** [for item in layout: ...; return updated] *)
Fixpoint update_items (layout updated : list json) : outcome (list json) :=
  match layout with
  | [] => Ok updated
  | item :: rest =>
      item' ← update_item item;
      update_items rest (updated ++ [item'])
  end.

(** The body of [update_component_state] below its first [if]. *)
Definition update_body (layout : json) (updated : option (list json)) : outcome json :=
  match layout with
  | JDict d => update_dict d
  | JStr _ | JNull => Ok layout
  | JList l => l' ← update_items l (default [] updated); Ok (JList l')
  | JBool _ | JInt _ | JFloat _ => Raise TypeError
  end.
End Rewriter.

(** [update_component_state] with its recursion depth bounded by [fuel]. *)
Fixpoint update_fuel (fuel : nat) (layout : json) (updated : option (list json))
    (kwargs : patches) : outcome json :=
  match kwargs with
  | [] => Ok layout
  | _ =>
      match fuel with
      | O => OutOfFuel
      | S fuel =>
          update_body (fun l => update_fuel fuel l None kwargs) kwargs layout updated
      end
  end.

(** The nesting depth of a document: a bound on the recursion depth. *)
Fixpoint json_depth (x : json) : nat :=
  match x with
  | JList l => S (foldr (fun y n => Nat.max (json_depth y) n) 0 l)
  | JDict d => S (foldr (fun kv n => Nat.max (json_depth kv.2) n) 0 d)
  | _ => 0
  end.

Definition update_component_state (layout : json) (updated : option (list json))
    (kwargs : patches) : outcome json :=
  update_fuel (S (json_depth layout)) layout updated kwargs.

(** ** Bytes and UTF-8 *)

Definition byte_of_ascii (c : ascii) : Z := Z.of_N (N_of_ascii c).
Definition ascii_of_byte (b : Z) : ascii := ascii_of_N (Z.to_N b).

Fixpoint bytes_of_string (s : string) : list Z :=
  match s with
  | EmptyString => []
  | String c r => byte_of_ascii c :: bytes_of_string r
  end.

Fixpoint string_of_bytes (bs : list Z) : string :=
  match bs with
  | [] => EmptyString
  | b :: r => String (ascii_of_byte b) (string_of_bytes r)
  end.

Definition hex_digit (d : Z) : ascii :=
  ascii_of_byte (if d <? 10 then 48 + d else 87 + d)%Z.

(** [x & 0x3f], the payload of a continuation byte *)
Definition low6 (b : Z) : Z := Z.land b 63.

Definition is_continuation (b : Z) : bool := ((128 <=? b) && (b <=? 191))%Z.

(** The code points of a [str], from its UTF-8 bytes.  A byte that starts no
    well-formed sequence (there is none in the image of a [str]) stands for
    itself. *)
Fixpoint code_points (bs : list Z) : list Z :=
  match bs with
  | [] => []
  | b :: r =>
      let stray := b :: code_points r in
      if (b <? 192)%Z then stray
      else match r with
      | [] => stray
      | c1 :: r1 =>
          if negb (is_continuation c1) then stray
          else if (b <? 224)%Z then
            (Z.shiftl (Z.land b 31) 6 + low6 c1)%Z :: code_points r1
          else match r1 with
          | [] => stray
          | c2 :: r2 =>
              if negb (is_continuation c2) then stray
              else if (b <? 240)%Z then
                (Z.shiftl (Z.land b 15) 12 + Z.shiftl (low6 c1) 6 + low6 c2)%Z
                  :: code_points r2
              else match r2 with
              | [] => stray
              | c3 :: r3 =>
                  if negb (is_continuation c3) then stray
                  else
                    (Z.shiftl (Z.land b 7) 18 + Z.shiftl (low6 c1) 12
                     + Z.shiftl (low6 c2) 6 + low6 c3)%Z :: code_points r3
              end
          end
      end
  end.

(** ** [json.dumps] with its defaults *)

(** ['\\u{0:04x}'.format(n)] *)
Definition u_escape (n : Z) : string :=
  String "\"%char (String "u"%char
    (String (hex_digit (Z.land (Z.shiftr n 12) 15))
    (String (hex_digit (Z.land (Z.shiftr n 8) 15))
    (String (hex_digit (Z.land (Z.shiftr n 4) 15))
    (String (hex_digit (Z.land n 15)) EmptyString))))).

(** The replacement [py_encode_basestring_ascii] makes for one code point. *)
Definition escape_code_point (n : Z) : string :=
  if (n =? 34)%Z then String "\"%char (String (ascii_of_byte 34) EmptyString)
  else if (n =? 92)%Z then String "\"%char (String "\"%char EmptyString)
  else if (n =? 10)%Z then String "\"%char "n"
  else if (n =? 13)%Z then String "\"%char "r"
  else if (n =? 9)%Z then String "\"%char "t"
  else if (n =? 12)%Z then String "\"%char "f"
  else if (n =? 8)%Z then String "\"%char "b"
  else if ((32 <=? n) && (n <=? 126))%Z then String (ascii_of_byte n) EmptyString
  else if (n <? 65536)%Z then u_escape n
  else
    let n := (n - 65536)%Z in
    u_escape (Z.lor 55296 (Z.land (Z.shiftr n 10) 1023))
    +:+ u_escape (Z.lor 56320 (Z.land n 1023)).

Definition encode_basestring_ascii (s : string) : string :=
  String (ascii_of_byte 34)
    (foldr (fun n acc => escape_code_point n +:+ acc)
       (String (ascii_of_byte 34) EmptyString)
       (code_points (bytes_of_string s))).

(** [sep.join(parts)] *)
Fixpoint str_join (sep : string) (parts : list string) : string :=
  match parts with
  | [] => EmptyString
  | [p] => p
  | p :: r => p +:+ sep +:+ str_join sep r
  end.

(** [int.__repr__] *)
Definition repr_int (z : Z) : string :=
  DecimalString.NilZero.string_of_int (Z.to_int z).

Fixpoint dumps (x : json) : string :=
  match x with
  | JNull => "null"
  | JBool true => "true"
  | JBool false => "false"
  | JInt z => repr_int z
  | JFloat r => r
  | JStr s => encode_basestring_ascii s
  | JList l => "[" +:+ str_join ", " (map dumps l) +:+ "]"
  | JDict d =>
      "{" +:+
      str_join ", "
        (map (fun kv => encode_basestring_ascii kv.1 +:+ ": " +:+ dumps kv.2) d)
      +:+ "}"
  end.

(** ** [hashlib.shake_128]: the SHAKE128 extendable-output function (FIPS 202) *)

Module Keccak.
Local Open Scope Z_scope.

Definition mask64 : Z := 18446744073709551615.

Definition rotl64 (x n : Z) : Z :=
  Z.land (Z.lor (Z.shiftl x n) (Z.shiftr x (64 - n))) mask64.

Definition not64 (x : Z) : Z := Z.lxor x mask64.

(** The state: 25 lanes of 64 bits, lane (x, y) at index x + 5y. *)
Definition lane (st : list Z) (x y : nat) : Z :=
  nth (x mod 5 + 5 * (y mod 5))%nat st 0.

Definition rotation_offsets : list Z :=
  [ 0;  1; 62; 28; 27;
   36; 44;  6; 55; 20;
    3; 10; 43; 25; 39;
   41; 45; 15; 21;  8;
   18;  2; 61; 56; 14].

Definition round_constants : list Z :=
  [0x0000000000000001; 0x0000000000008082; 0x800000000000808A;
   0x8000000080008000; 0x000000000000808B; 0x0000000080000001;
   0x8000000080008081; 0x8000000000008009; 0x000000000000008A;
   0x0000000000000088; 0x0000000080008009; 0x000000008000000A;
   0x000000008000808B; 0x800000000000008B; 0x8000000000008089;
   0x8000000000008003; 0x8000000000008002; 0x8000000000000080;
   0x000000000000800A; 0x800000008000000A; 0x8000000080008081;
   0x8000000000008080; 0x0000000080000001; 0x8000000080008008].

Definition theta (st : list Z) : list Z :=
  let c := map (fun x =>
             Z.lxor (lane st x 0) (Z.lxor (lane st x 1)
               (Z.lxor (lane st x 2) (Z.lxor (lane st x 3) (lane st x 4)))))
             (seq 0 5) in
  let d := map (fun x =>
             Z.lxor (nth ((x + 4) mod 5)%nat c 0)
                    (rotl64 (nth ((x + 1) mod 5)%nat c 0) 1))
             (seq 0 5) in
  map (fun i => Z.lxor (nth i st 0) (nth (i mod 5)%nat d 0)) (seq 0 25).

Definition rho_pi (st : list Z) : list Z :=
  map (fun i =>
         let x := (i mod 5)%nat in
         let y := (i / 5)%nat in
         let x' := ((x + 3 * y) mod 5)%nat in
         rotl64 (lane st x' x) (nth (x' + 5 * x)%nat rotation_offsets 0))
      (seq 0 25).

Definition chi (st : list Z) : list Z :=
  map (fun i =>
         let x := (i mod 5)%nat in
         let y := (i / 5)%nat in
         Z.lxor (lane st x y)
                (Z.land (not64 (lane st (x + 1) y)) (lane st (x + 2) y)))
      (seq 0 25).

Definition iota (rc : Z) (st : list Z) : list Z :=
  match st with
  | [] => []
  | a :: r => Z.lxor a rc :: r
  end.

Definition round (st : list Z) (rc : Z) : list Z :=
  iota rc (chi (rho_pi (theta st))).

(** Keccak-f[1600] *)
Definition keccak_f (st : list Z) : list Z :=
  fold_left round round_constants st.

(** The rate of SHAKE128, in bytes. *)
Definition rate : nat := 168.

(** Byte [i] of the state, lanes little-endian. *)
Definition state_byte (st : list Z) (i : nat) : Z :=
  Z.land (Z.shiftr (nth (i / 8)%nat st 0) (8 * Z.of_nat (i mod 8))) 255.

(** Lane [i] of a block of bytes. *)
Definition block_lane (block : list Z) (i : nat) : Z :=
  fold_right (fun b acc => b + 256 * acc) 0 (take 8 (drop (8 * i) block)).

Definition xor_block (st block : list Z) : list Z :=
  map (fun i => Z.lxor (nth i st 0) (block_lane block i)) (seq 0 25).

(** The message followed by the SHAKE suffix 1111 and the pad10*1 padding. *)
Definition pad (msg : list Z) : list Z :=
  let q := (rate - length msg mod rate)%nat in
  msg ++ (if (q =? 1)%nat then [0x9F]
          else 0x1F :: replicate (q - 2) 0 ++ [0x80]).

Fixpoint absorb (blocks : nat) (st msg : list Z) : list Z :=
  match blocks with
  | O => st
  | S n => absorb n (keccak_f (xor_block st (take rate msg))) (drop rate msg)
  end.

Fixpoint squeeze (blocks : nat) (st : list Z) : list Z :=
  match blocks with
  | O => []
  | S n => map (state_byte st) (seq 0 rate) ++ squeeze n (keccak_f st)
  end.

(** [shake_128(msg).digest(k)] *)
Definition shake_128 (msg : list Z) (k : nat) : list Z :=
  let padded := pad msg in
  let st := absorb (length padded / rate) (replicate 25 0) padded in
  take k (squeeze (S (k / rate)) st).
End Keccak.

Definition hex_of_bytes (bs : list Z) : string :=
  foldr (fun b acc =>
           String (hex_digit (Z.shiftr b 4)) (String (hex_digit (Z.land b 15)) acc))
        EmptyString bs.

(** [shake_128(data).hexdigest(length)] (CPython 3.11: the length is a C
    [Py_ssize_t] that is then read as unsigned). *)
Definition shake_128_hexdigest (data : list Z) (length : Z) : outcome string :=
  if (length <? 0)%Z then Raise MemoryError
  else if (2 ^ 63 <=? length)%Z then Raise OverflowError
  else Ok (hex_of_bytes (Keccak.shake_128 data (Z.to_nat length))).

(** ** The state codec: [DashShare.encode] *)

(** [int(n / 2)]: the quotient as the nearest binary64 (ties to even), then
    truncated. *)
Definition int_half (n : Z) : outcome Z :=
  let a := Z.abs n in
  let bits := (Z.log2 a + 1)%Z in
  if (bits <=? 53)%Z then Ok (Z.quot n 2)
  else
    let sh := (bits - 53)%Z in
    let q := Z.shiftr a sh in
    let r := Z.land a (2 ^ sh - 1)%Z in
    let half := (2 ^ (sh - 1))%Z in
    let q := if (half <? r)%Z || ((r =? half)%Z && Z.odd q) then (q + 1)%Z else q in
    let m := (q * 2 ^ (sh - 1))%Z in
    if (2 ^ 1024 <=? m)%Z then Raise OverflowError
    else Ok (Z.sgn n * m)%Z.

(** [shake_128(json.dumps(state).encode("utf-8")).hexdigest(int(n / 2))];
    the text [json.dumps] returns is ASCII, so its UTF-8 bytes are its
    characters. *)
Definition encode (state : json) (n : Z) : outcome string :=
  k ← int_half n;
  shake_128_hexdigest (bytes_of_string (dumps state)) k.

(** ** [urllib.parse.parse_qs] with its defaults (CPython 3.11) *)

(** [s.split(sep)] for a one-character [sep]. *)
Fixpoint str_split (sep : ascii) (s : string) : list string :=
  match s with
  | EmptyString => [EmptyString]
  | String c r =>
      if Ascii.eqb c sep then EmptyString :: str_split sep r
      else match str_split sep r with
           | [] => [String c EmptyString]
           | p :: ps => String c p :: ps
           end
  end.

(** [s.split(sep, 1)]: [None] when [sep] does not occur (a list of one),
    otherwise the text before and after its first occurrence. *)
Fixpoint str_split1 (sep : ascii) (s : string) : option (string * string) :=
  match s with
  | EmptyString => None
  | String c r =>
      if Ascii.eqb c sep then Some (EmptyString, r)
      else match str_split1 sep r with
           | Some (a, b) => Some (String c a, b)
           | None => None
           end
  end.

Definition hex_value (c : ascii) : option Z :=
  let b := byte_of_ascii c in
  if ((48 <=? b) && (b <=? 57))%Z then Some (b - 48)%Z
  else if ((65 <=? b) && (b <=? 70))%Z then Some (b - 55)%Z
  else if ((97 <=? b) && (b <=? 102))%Z then Some (b - 87)%Z
  else None.

(** One item of [string.split(b'%')[1:]] in [unquote_to_bytes]. *)
Definition unquote_item (item : string) : list Z :=
  match item with
  | String h (String l rest) =>
      match hex_value h, hex_value l with
      | Some a, Some b => (16 * a + b)%Z :: bytes_of_string rest
      | _, _ => 37%Z :: bytes_of_string item
      end
  | _ => 37%Z :: bytes_of_string item
  end.

Definition unquote_to_bytes (s : string) : list Z :=
  match str_split "%"%char s with
  | [] => []
  | first :: items => bytes_of_string first ++ concat (map unquote_item items)
  end.

(** U+FFFD in UTF-8 *)
Definition replacement_char : list Z := [239; 191; 189]%Z.

Definition in_range (lo hi b : Z) : bool := ((lo <=? b) && (b <=? hi))%Z.

(** [bs.decode("utf-8", "replace")], as the UTF-8 bytes of the resulting
    [str]: every maximal ill-formed part becomes U+FFFD. *)
Fixpoint decode_replace (bs : list Z) : list Z :=
  match bs with
  | [] => []
  | b :: r =>
      if (b <? 128)%Z then b :: decode_replace r
      else if in_range 194 223 b then
        match r with
        | [] => replacement_char
        | c1 :: r1 =>
            if is_continuation c1 then b :: c1 :: decode_replace r1
            else replacement_char ++ decode_replace r
        end
      else if in_range 224 239 b then
        let lo := if (b =? 224)%Z then 160%Z else 128%Z in
        let hi := if (b =? 237)%Z then 159%Z else 191%Z in
        match r with
        | [] => replacement_char
        | c1 :: r1 =>
            if in_range lo hi c1 then
              match r1 with
              | [] => replacement_char
              | c2 :: r2 =>
                  if is_continuation c2 then b :: c1 :: c2 :: decode_replace r2
                  else replacement_char ++ decode_replace r1
              end
            else replacement_char ++ decode_replace r
        end
      else if in_range 240 244 b then
        let lo := if (b =? 240)%Z then 144%Z else 128%Z in
        let hi := if (b =? 244)%Z then 143%Z else 191%Z in
        match r with
        | [] => replacement_char
        | c1 :: r1 =>
            if in_range lo hi c1 then
              match r1 with
              | [] => replacement_char
              | c2 :: r2 =>
                  if is_continuation c2 then
                    match r2 with
                    | [] => replacement_char
                    | c3 :: r3 =>
                        if is_continuation c3 then
                          b :: c1 :: c2 :: c3 :: decode_replace r3
                        else replacement_char ++ decode_replace r2
                    end
                  else replacement_char ++ decode_replace r1
              end
            else replacement_char ++ decode_replace r
        end
      else replacement_char ++ decode_replace r
  end.

(** The loop of [unquote] over [_asciire.split(string)]: [run] is the ASCII
    run read so far, which is unquoted and decoded where it ends. *)
Fixpoint unquote_runs (s : string) (run : string) : string :=
  let flush := string_of_bytes (decode_replace (unquote_to_bytes (String.rev run))) in
  match s with
  | EmptyString => flush
  | String c r =>
      if (byte_of_ascii c <? 128)%Z then unquote_runs r (String c run)
      else flush +:+ String c (unquote_runs r EmptyString)
  end.

(** [urllib.parse.unquote(s)] *)
Definition unquote (s : string) : string :=
  if str_contains "%" s then unquote_runs s EmptyString else s.

(** [urllib.parse.parse_qsl(qs)] *)
Definition parse_qsl (qs : string) : list (string * string) :=
  omap (fun name_value =>
          match str_split1 "="%char name_value with
          | None => None
          | Some (name, value) =>
              if String.eqb value "" then None
              else Some (unquote (str_replace "+"%char " " name),
                         unquote (str_replace "+"%char " " value))
          end)
       (str_split "&"%char qs).

(** The loop of [parse_qs]: [parsed_result[name].append(value)] or
    [parsed_result[name] = [value]]. *)
Definition parse_qs_add (parsed_result : list (string * list string))
    (nv : string * string) : list (string * list string) :=
  match dict_get nv.1 parsed_result with
  | Some values => dict_set parsed_result nv.1 (values ++ [nv.2])
  | None => dict_set parsed_result nv.1 [nv.2]
  end.

Definition parse_qs (qs : string) : list (string * list string) :=
  fold_left parse_qs_add (parse_qsl qs) [].

(** ** [DashShare.parse_query_string] *)

(** [value[0]] *)
Definition first_value (value : list string) : outcome string :=
  match value with
  | v :: _ => Ok v
  | [] => Raise IndexError
  end.

(** [{key: value[0] for key, value in parsed_data.items()}] *)
Fixpoint first_values (items : list (string * list string))
    (result_dict : list (string * string)) : outcome (list (string * string)) :=
  match items with
  | [] => Ok result_dict
  | (key, value) :: rest =>
      v ← first_value value;
      first_values rest (dict_set result_dict key v)
  end.

Definition parse_query_string (qs : string) : outcome (list (string * string)) :=
  let qs := str_replace "?"%char "" qs in
  let parsed_data := parse_qs qs in
  first_values parsed_data [].

(** ** The host: files, environment, components *)

(** The files under the working directory: whether [./share] exists, and the
    JSON document each file holds ([json.dump] writes a document and
    [json.load] reads it back), by path as the code spells it.  The record
    tells of no directory but [./share] and of no file but those of
    [files]. *)
Record filesystem : Type := {
  share_dir : bool;
  files : gmap string json;
}.

(** [out_dir.mkdir()] *)
Definition mkdir_share (fs : filesystem) : filesystem :=
  {| share_dir := true; files := files fs |}.

(** [json.dump(doc, open(path, "w"), indent=4)] *)
Definition write_file (fs : filesystem) (path : string) (doc : json) : filesystem :=
  {| share_dir := share_dir fs; files := <[path := doc]> (files fs) |}.

(** [f"./share/{hash}.json"] *)
Definition share_path (hash : string) : string := "./share/" +:+ hash +:+ ".json".

(** *** Opening a file for reading *)

(** The limits of the host (Linux): the bytes of one name, and those of a
    path with the NUL that closes it. *)
Definition NAME_MAX : nat := 255.
Definition PATH_MAX : nat := 4096.

(** The path of what lies [names] below the working directory, spelled as
    the code spells the paths it writes: [./share/ab.json]. *)
Definition path_of (names : list string) : string :=
  "." +:+ foldr (λ name rest, "/" +:+ name +:+ rest) "" names.

(** [..] at the directory [dir]. *)
Definition parent (dir : list string) : list string :=
  match reverse dir with
  | [] => [".."]
  | name :: above => if String.eqb name ".." then dir ++ [".."] else reverse above
  end.

(** One name of a path before its last, read at the directory [dir]: the
    directory it leads to, or the error the host answers.  The directories
    the record tells of are the working directory, those above it and
    [./share]; a name that is not one of them is a stored file
    ([ENOTDIR]) or is missing ([ENOENT]). *)
Definition enter (fs : filesystem) (dir : list string) (name : string)
    : outcome (list string) :=
  if String.eqb name "" || String.eqb name "." then Ok dir
  else if String.eqb name ".." then Ok (parent dir)
  else if NAME_MAX <? String.length name then Raise OSError
  else if share_dir fs && bool_decide (dir ++ [name] = ["share"]) then Ok (dir ++ [name])
  else match files fs !! path_of (dir ++ [name]) with
       | Some _ => Raise NotADirectoryError
       | None => Raise FileNotFoundError
       end.

(** The walk along the names of a path, from the directory [dir]; the last
    name is the file to read. *)
Fixpoint walk (fs : filesystem) (dir : list string) (names : list string)
    : outcome json :=
  match names with
  | [] => Raise IsADirectoryError
  | [name] =>
      if String.eqb name "" || String.eqb name "." || String.eqb name ".."
      then Raise IsADirectoryError
      else if NAME_MAX <? String.length name then Raise OSError
      else if share_dir fs && bool_decide (dir ++ [name] = ["share"])
      then Raise IsADirectoryError
      else match files fs !! path_of (dir ++ [name]) with
           | Some doc => Ok doc
           | None => Raise FileNotFoundError
           end
  | name :: rest => dir ← enter fs dir name; walk fs dir rest
  end.

(** [json.load(open(path, "rb"))] for a path spelled from the working
    directory, [./...].  CPython refuses a NUL byte before it asks the host
    ([ValueError]); the host refuses a path or a name that is too long
    ([OSError], errno 36).  Then the document is the one stored under the
    spelling itself, or else under the path the spelling leads to. *)
Definition open_rb (fs : filesystem) (path : string) : outcome json :=
  if str_contains (String "000" "") path then Raise ValueError
  else if PATH_MAX <=? String.length path then Raise OSError
  else match files fs !! path with
       | Some doc => Ok doc
       | None => walk fs [] (str_split "/" path)
       end.

(** What a callback hands back for its outputs: values, or [dash.no_update]. *)
Inductive callback_output (B : Type) : Type :=
| no_update
| output (b : B).
Arguments no_update {B}.
Arguments output {B} b.

(** The [dcc.Interval] of [_make_state_tracker_components]. *)
Record Interval : Type := {
  interval : Z;
  disabled : bool;
  n_intervals : Z;
  max_intervals : Z;
}.

(** The two [Output]s of the timer callbacks, [disabled] and [n_intervals],
    written to the component. *)
Definition set_interval (t : Interval) (out : bool * Z) : Interval :=
  {| interval := interval t; disabled := out.1; n_intervals := out.2;
     max_intervals := max_intervals t |}.

(** A [dcc.Interval] counts, and fires its callbacks, while it is enabled and
    has fired fewer than [max_intervals] times. *)
Definition armed (t : Interval) : bool :=
  negb (disabled t) && (n_intervals t <? max_intervals t)%Z.

(** [urllib.parse.urlparse(url)], the two fields the code reads. *)
Record ParseResult : Type := { scheme : string; netloc : string }.

(** ** [DashShare] *)

Record DashShare : Type := {
  load_input : string * string;
  save_input : string * string;
  save_output : string * string;
  url_input : string;
  layout_id : string;
  interval_id : string;
  modal_id : string;
  link_id : string;
  interval_delay : Z;
  locked : bool;
}.

(** The dataclass constructor with its defaults, then [__post_init__]. *)
Definition new_DashShare (load_input save_input save_output : string * string)
    (url_input : string) : DashShare :=
  {| load_input := load_input; save_input := save_input;
     save_output := save_output; url_input := url_input;
     layout_id := "app-layout"; interval_id := "update-timer";
     modal_id := "save-modal"; link_id := "url-link";
     interval_delay := 2000; locked := false |}.

Definition set_locked (self : DashShare) (b : bool) : DashShare :=
  {| load_input := load_input self; save_input := save_input self;
     save_output := save_output self; url_input := url_input self;
     layout_id := layout_id self; interval_id := interval_id self;
     modal_id := modal_id self; link_id := link_id self;
     interval_delay := interval_delay self; locked := b |}.

Definition lock (self : DashShare) : DashShare := set_locked self true.
Definition unlock (self : DashShare) : DashShare := set_locked self false.

(** The timer [_make_state_tracker_components] puts in the layout. *)
Definition make_interval (self : DashShare) : Interval :=
  {| interval := interval_delay self; disabled := true; n_intervals := 0;
     max_intervals := 1 |}.

(** [pause_update(func)]: the flag is read when [inner] is called. *)
Definition pause_update {A B : Type} (func : A → B) (self : DashShare) (args : A)
    : callback_output B :=
  if locked self then no_update else output (func args).

(** The two abstract methods, over the store [W] a strategy keeps its records
    in. *)
Class ShareStrategy (S W : Type) : Type := {
  dash_share : S → DashShare;
  save : S → W → json → json → string → W * outcome json;
  load : S → W → json → json → outcome json;
}.

(** The first two callbacks of [register_callbacks]; each returns the object
    with its flag and the pair of outputs. *)
Definition enable_interval_and_lock (self : DashShare) (trigger : json)
    (dis : bool) (n : option Z) : DashShare * (bool * Z) :=
  if truthy trigger then (lock self, (false, 0%Z))
  else (unlock self, (false, 0%Z)).

Definition unlock_after_interval_trigger (self : DashShare) (n : option Z)
    : DashShare * (bool * Z) :=
  match n with
  | Some n => if (0 <? n)%Z then (unlock self, (true, 1%Z)) else (self, (false, 0%Z))
  | None => (self, (false, 0%Z))
  end.

Section Callbacks.
(** [urlparse] and [os.getenv("ON_SERVER")] are the host's. *)
Variable urlparse : string → ParseResult.
Variable on_server : option string.

Context {S W : Type} `{ShareStrategy S W}.

Definition get_url_base (url : string) : string :=
  let parsed_url := urlparse url in
  let end_ :=
    match on_server with
    | None => ""
    | Some v => if String.eqb v "" then "" else "/dash"
    end in
  scheme parsed_url +:+ "://" +:+ netloc parsed_url +:+ end_.

(** The body of the [save] callback. *)
Definition save_body (self : S) (args : json * json * bool * string) (w : W)
    : W * outcome (json * bool * string) :=
  let '(input, state, is_open, url) := args in
  match encode state 8 with
  | Ok hashed_url =>
      match save self w input state hashed_url with
      | (w, Ok out) =>
          if truthy input then
            (w, Ok (out, negb is_open,
                    get_url_base url +:+ "/?state=" +:+ hashed_url))
          else (w, Ok (out, is_open, ""))
      | (w, Raise e) => (w, Raise e)
      | (w, OutOfFuel) => (w, OutOfFuel)
      end
  | Raise e => (w, Raise e)
  | OutOfFuel => (w, OutOfFuel)
  end.


(** The [load] callback. *)
Definition load_callback (self : S) (w : W) (input state : json) : outcome json :=
  load self w input state.
End Callbacks.

(** ** [FileShare] *)

(** What [self.update_components] holds.  [FileShare] is not itself declared
    a dataclass, so its constructor is that of [DashShare] and the attribute
    is the [dataclasses.Field] the class body leaves (truthy, and not a
    mapping) until the application assigns a dictionary to it. *)
Inductive attribute : Type :=
| unset_field
| mapping (kwargs : patches).

Record FileShare : Type := {
  base : DashShare;
  update_components : attribute;
}.

Definition new_FileShare (load_input save_input save_output : string * string)
    (url_input : string) : FileShare :=
  {| base := new_DashShare load_input save_input save_output url_input;
     update_components := unset_field |}.

(** [if self.update_components:
       state = update_component_state(state, None, **self.update_components)] *)
Definition pre_save_patch (self : FileShare) (state : json) : outcome json :=
  match update_components self with
  | unset_field => Raise TypeError
  | mapping [] => Ok state
  | mapping kwargs => update_component_state state None kwargs
  end.

(** [input is not None and input > 0] *)
Definition is_positive (input : json) : outcome bool :=
  match input with
  | JNull => Ok false
  | JInt z => Ok (0 <? z)%Z
  | JBool b => Ok b
  | JFloat r =>
      Ok (truthy input && negb (String.prefix "-" r) && negb (String.eqb r "NaN"))
  | JStr _ | JList _ | JDict _ => Raise TypeError
  end.

Definition FileShare_load (self : FileShare) (fs : filesystem) (input state : json)
    : outcome json :=
  match input with
  | JStr input =>
      q ← parse_query_string input;
      match dict_get "state" q with
      | Some h =>
          match open_rb fs (share_path h) with
          | Ok doc =>
              update_component_state doc None
                [(modal_id (base self), [("is_open", JBool false)])]
          | Raise FileNotFoundError => Ok state
          | Raise e => Raise e
          | OutOfFuel => OutOfFuel
          end
      | None => Ok state
      end
  | _ => Raise AttributeError
  end.

Definition FileShare_save (self : FileShare) (fs : filesystem) (input state : json)
    (hash : string) : filesystem * outcome json :=
  let fs := if share_dir fs then fs else mkdir_share fs in
  match files fs !! share_path hash with
  | Some _ => (fs, Ok input)
  | None =>
      match is_positive input with
      | Ok true =>
          match pre_save_patch self state with
          | Ok state => (write_file fs (share_path hash) state, Ok input)
          | Raise e => (fs, Raise e)
          | OutOfFuel => (fs, OutOfFuel)
          end
      | Ok false => (fs, Ok input)
      | Raise e => (fs, Raise e)
      | OutOfFuel => (fs, OutOfFuel)
      end
  end.

#[global] Instance FileShare_strategy : ShareStrategy FileShare filesystem := {
  dash_share := base;
  save := FileShare_save;
  load := FileShare_load;
}.

(** ** Places in a layout *)

(** A path into a document: dictionary keys and list indices. *)
Inductive step : Type :=
| Key (k : string)
| Index (i : nat).

Fixpoint get_path (p : list step) (x : json) : option json :=
  match p with
  | [] => Some x
  | Key k :: p =>
      match x with
      | JDict d => match dict_get k d with Some v => get_path p v | None => None end
      | _ => None
      end
  | Index i :: p =>
      match x with
      | JList l => match l !! i with Some v => get_path p v | None => None end
      | _ => None
      end
  end.

(** The normalized id of the dictionary that carries it, read as the loop
    reads it: [props.get("id", "").replace("-", "_")]; none when the id is
    not a string. *)
Definition element_id (d : pydict) : option string :=
  match dict_get "id" d with
  | Some (JStr s) => Some (normalize_id s)
  | Some _ => None
  | None => Some ""
  end.

(** [k] is a key of the patch that [P] holds for the id of [d]. *)
Definition patched_key (P : patches) (d : pydict) (k : string) : bool :=
  match element_id d with
  | Some id =>
      match dict_get id P with
      | Some patch => dict_contains k patch
      | None => false
      end
  | None => false
  end.

(** The path goes through a patched key of a dictionary whose normalized id
    is a key of [P]. *)
Fixpoint touched (P : patches) (x : json) (p : list step) : bool :=
  match p with
  | [] => false
  | Key k :: p =>
      match x with
      | JDict d =>
          patched_key P d k ||
          match dict_get k d with Some v => touched P v p | None => false end
      | _ => false
      end
  | Index i :: p =>
      match x with
      | JList l => match l !! i with Some v => touched P v p | None => false end
      | _ => false
      end
  end.

(** What is found at a place: nothing, a scalar, a list of some length, or a
    dictionary (whose entries are further places). *)
Inductive shape : Type :=
| Absent
| Scalar (x : json)
| ListOf (n : nat)
| DictOf.

Definition shape_of (o : option json) : shape :=
  match o with
  | None => Absent
  | Some (JList l) => ListOf (length l)
  | Some (JDict _) => DictOf
  | Some x => Scalar x
  end.

(** The two documents hold the same at every place [keep] does not exclude. *)
Definition agree_on (keep : list step → bool) (x y : json) : Prop :=
  ∀ p, keep p = false → shape_of (get_path p x) = shape_of (get_path p y).

(** ** Test layouts *)

(** A component as Dash serializes it. *)
Definition component (type : string) (props : pydict) : json :=
  JDict [("props", JDict props); ("type", JStr type); ("namespace", JStr "dash_html_components")].

(** The layout of the end-to-end scenario: four components, the fourth one
    wrapping the component with id [test1]. *)
Definition sample_layout : json :=
  JList [
    component "H1" [("children", JStr "Title"); ("id", JStr "title")];
    component "Dropdown" [("value", JStr "Canada"); ("id", JStr "dropdown-selection")];
    component "Button" [("children", JStr "Share Me!"); ("id", JStr "share"); ("n_clicks", JInt 0)];
    component "Div" [
      ("children", JList [
         component "P" [("children", JStr "waiting"); ("id", JStr "test1")];
         component "P" [("children", JStr "other")]]);
      ("style", JDict [("height", JFloat "0.5")])]
  ].

Definition sample_patches : patches :=
  [("test1", [("children", JStr "it worked!!!")])].

Definition sample_result : json :=
  JList [
    component "H1" [("children", JStr "Title"); ("id", JStr "title")];
    component "Dropdown" [("value", JStr "Canada"); ("id", JStr "dropdown-selection")];
    component "Button" [("children", JStr "Share Me!"); ("id", JStr "share"); ("n_clicks", JInt 0)];
    component "Div" [
      ("children", JList [
         component "P" [("children", JStr "it worked!!!"); ("id", JStr "test1")];
         component "P" [("children", JStr "other")]]);
      ("style", JDict [("height", JFloat "0.5")])]
  ].

(** The two shapes of dictionary-valued children the loop recognizes, with
    the key and the substructure it recurses into: the children's own
    [props] (when the [in] test can be made on it), or else their direct
    [children]. *)
Definition recognized_shape (c : pydict) : option (string * json) :=
  match dict_get "props" c with
  | Some (JDict _ as sub) | Some (JStr _ as sub) | Some (JList _ as sub) =>
      Some ("props", sub)
  | Some _ => None
  | None =>
      match dict_get "children" c with
      | Some sub => Some ("children", sub)
      | None => None
      end
  end.

(** ** Reading a query *)

(** The values a list of name-value pairs gives for [key], in order. *)
Definition values_of (key : string) (pairs : list (string * string)) : list string :=
  (filter (λ nv, nv.1 = key) pairs).*2.

(** The fingerprint a load request names: the [state] entry of its query. *)
Definition requested_fingerprint (input : string) : option string :=
  match parse_query_string input with
  | Ok q => dict_get "state" q
  | _ => None
  end.

(** ** Test shares *)

(** A share that, as the example application does, empties the figure of the
    graph before the state is stored. *)
Definition graph_share : FileShare :=
  {| base := new_DashShare ("url", "search") ("share", "n_clicks")
               ("share", "n_clicks") "url";
     update_components := mapping [("graph_content", [("figure", JDict [])])] |}.

Definition graph_layout : json :=
  JList [JDict [("props", JDict [("id", JStr "graph-content");
                                 ("figure", JDict [("data", JList [JInt 1; JInt 2])])]);
                ("type", JStr "Graph"); ("namespace", JStr "dash_core_components")]].


Definition empty_fs : filesystem := {| share_dir := false; files := ∅ |}.

(** A host that serves the application at one address. *)
Definition local_urlparse (url : string) : ParseResult :=
  {| scheme := "http"; netloc := "127.0.0.1:8050" |}.

(** A stored layout that holds the share dialog, open as it was when the
    state was saved. *)
Definition modal_layout : json :=
  JList [
    component "Button" [("children", JStr "Share Me!"); ("id", JStr "share")];
    JDict [("props", JDict [("id", JStr "save-modal"); ("is_open", JBool true)]);
           ("type", JStr "Modal");
           ("namespace", JStr "dash_bootstrap_components")]
  ].

(** ** Characters of a string *)

(** [all(f(c) for c in s)] *)
Fixpoint str_forall (f : ascii → bool) (s : string) : bool :=
  match s with
  | EmptyString => true
  | String c r => f c && str_forall f r
  end.

(** [c in "0123456789abcdef"] *)
Definition is_hex_char (c : ascii) : bool :=
  let b := byte_of_ascii c in
  ((48 <=? b) && (b <=? 57) || (97 <=? b) && (b <=? 102))%Z.

(** [c not in "?&=+%"]: the characters a query string gives a meaning to. *)
Definition query_safe (c : ascii) : bool :=
  negb (existsb (Ascii.eqb c) ["?"; "&"; "="; "+"; "%"]%char).

(** ** Kinds of values *)

Definition is_dict (x : json) : bool :=
  match x with JDict _ => true | _ => false end.

Definition is_str (x : json) : bool :=
  match x with JStr _ => true | _ => false end.

(** The children the loop goes into: a non-empty list or dictionary. *)
Definition is_nested (children : json) : bool :=
  match children with
  | JList (_ :: _) | JDict (_ :: _) => true
  | _ => false
  end.

(** ** [dash_share/modify.py]: the rewriter of sequences only *)

Module Modify.

(** [id not in kwargs], then [kwargs[id]]: a lookup by a value of unknown
    type; a list or a dictionary cannot be hashed. *)
Definition lookup_patch (kwargs : patches) (id : json) : outcome (option pydict) :=
  match id with
  | JStr s => Ok (dict_get s kwargs)
  | JList _ | JDict _ => Raise TypeError
  | JNull | JBool _ | JInt _ | JFloat _ => Ok None
  end.

Section Body.
(** The recursive call [update_component_state(children, None, **kwargs)]. *)
Variable rec : list json → outcome (list json).
Variable kwargs : patches.

(** The body of [for item in layout]: the item as it is appended. *)
Definition update_item (item : json) : outcome json :=
  props ← item_props item;
  match props, item with
  | JDict props, JDict it =>
      let children := default JNull (dict_get "children" props) in
      props ←
        (match children with
         | JList ((_ :: _) as l) =>
             r ← rec l; Ok (dict_set props "children" (JList r))
         | _ => Ok props
         end);
      patch ← lookup_patch kwargs (default (JStr "") (dict_get "id" props));
      match patch with
      | None => Ok (JDict (dict_set it "props" (JDict props)))
      | Some patch =>
          Ok (JDict (dict_set it "props" (JDict (dict_update props patch))))
      end
  | _, _ => Raise AttributeError
  end.

Fixpoint update_items (layout updated : list json) : outcome (list json) :=
  match layout with
  | [] => Ok updated
  | item :: rest =>
      item' ← update_item item;
      update_items rest (updated ++ [item'])
  end.
End Body.

(** The function on a list, its recursion depth bounded by [fuel]. *)
Fixpoint update_fuel (fuel : nat) (layout updated : list json) (kwargs : patches)
    : outcome (list json) :=
  match fuel with
  | O => OutOfFuel
  | S fuel =>
      update_items (fun l => update_fuel fuel l [] kwargs) kwargs layout updated
  end.

(** [update_component_state(layout, updated, **kwargs)].  [for item in
    layout] on something that is not a list: an empty dictionary or string
    has no item, the keys of a dictionary and the characters of a string are
    strings and cannot be indexed by ["props"], and nothing else can be
    iterated. *)
Definition update_component_state (layout : json) (updated : option (list json))
    (kwargs : patches) : outcome json :=
  match layout with
  | JList l =>
      r ← update_fuel (S (json_depth layout)) l (default [] updated) kwargs;
      Ok (JList r)
  | JDict [] | JStr EmptyString => Ok (JList (default [] updated))
  | _ => Raise TypeError
  end.

End Modify.

(** The layouts on which the two rewriters do the same: sequences of
    components whose props are a dictionary, whose children are not a
    non-empty dictionary and, when they are a non-empty list, are such a
    sequence again, and whose id, when there is one, is a string without
    hyphen. *)
Inductive plain_item : json → Prop :=
| plain_item_intro (it props : pydict) :
    dict_get "props" it = Some (JDict props) →
    (∀ c, dict_get "children" props = Some (JDict c) → c = []) →
    (∀ l, dict_get "children" props = Some (JList l) → Forall plain_item l) →
    (∀ id, dict_get "id" props = Some id → ∃ s, id = JStr s ∧ normalize_id s = s) →
    plain_item (JDict it).

(** ** The example application: [examples/file_share.py] *)

Module Example.
(** The module's own [parse_query_string]. *)
Definition parse_query_string (query_string : string)
    : outcome (list (string * string)) :=
  let query_string := str_replace "?"%char "" query_string in
  let parsed_data := parse_qs query_string in
  first_values parsed_data [].

(** [class FileShare2(DashShare)]: no field of its own. *)
Record FileShare2 : Type := { share_base : DashShare }.

Definition FileShare2_load (self : FileShare2) (fs : filesystem) (input state : json)
    : outcome json :=
  match input with
  | JStr input =>
      q ← parse_query_string input;
      match dict_get "state" q with
      | Some h =>
          doc ← open_rb fs (share_path h);
          update_component_state doc None
            [(modal_id (share_base self), [("is_open", JBool false)])]
      | None => Ok state
      end
  | _ => Raise AttributeError
  end.

Definition FileShare2_save (self : FileShare2) (fs : filesystem) (input state : json)
    (hash : string) : filesystem * outcome json :=
  let fs := if share_dir fs then fs else mkdir_share fs in
  match is_positive input with
  | Ok true =>
      match update_component_state state None
              [("graph_content", [("figure", JDict [])])] with
      | Ok state => (write_file fs (share_path hash) state, Ok input)
      | Raise e => (fs, Raise e)
      | OutOfFuel => (fs, OutOfFuel)
      end
  | Ok false => (fs, Ok input)
  | Raise e => (fs, Raise e)
  | OutOfFuel => (fs, OutOfFuel)
  end.

#[global] Instance FileShare2_strategy : ShareStrategy FileShare2 filesystem := {
  dash_share := share_base;
  save := FileShare2_save;
  load := FileShare2_load;
}.

(** [share = FileShare2(app=app, load_input=("url", "search"), ...)] *)
Definition share : FileShare2 :=
  {| share_base := new_DashShare ("url", "search") ("share", "n_clicks")
                     ("share", "n_clicks") "url" |}.
End Example.

(** ** Names of files *)

(** [c] is neither NUL nor [/]: a character a file name can hold. *)
Definition name_char (c : ascii) : bool :=
  negb (Ascii.eqb c "000") && negb (Ascii.eqb c "/").

(** [h + ".json"] can be the name of a file: no NUL, no [/], and no more
    bytes than the host takes. *)
Definition file_name (h : string) : bool :=
  str_forall name_char h && (String.length h + 5 <=? NAME_MAX).

(** ** The calls of a traversal *)

(** The values on which Python can test [x in v]: the others make the test
    raise [TypeError]. *)
Definition is_container (v : json) : bool :=
  match v with
  | JDict _ | JStr _ | JList _ => true
  | JNull | JBool _ | JInt _ | JFloat _ => false
  end.

(** [calls P T T']: the call [update_component_state(T, None, **P)] makes
    the recursive call [update_component_state(T', None, **P)].  A
    dictionary is rewritten under [children] (line 51) and, when that has
    returned, under [props] (line 55).  In a sequence, when the items before
    have been accepted, an item with dictionary children of a recognized
    shape is rewritten under the key of the shape (lines 71 and 75) and an
    item with a non-empty list of children under [children] (line 82). *)
Inductive calls (P : patches) : json → json → Prop :=
| calls_dict_children (d : pydict) (sub : json) :
    dict_get "children" d = Some sub →
    calls P (JDict d) sub
| calls_dict_props (d : pydict) (sub : json) :
    (∀ c, dict_get "children" d = Some c →
          ∃ r, update_component_state c None P = Ok r) →
    dict_get "props" d = Some sub →
    calls P (JDict d) sub
| calls_item_dict (pre pre' post : list json) (it props c : pydict)
    (k : string) (sub : json) :
    update_component_state (JList pre) None P = Ok (JList pre') →
    dict_get "props" it = Some (JDict props) →
    dict_get "children" props = Some (JDict c) →
    recognized_shape c = Some (k, sub) →
    calls P (JList (pre ++ JDict it :: post)) sub
| calls_item_list (pre pre' post : list json) (it props : pydict)
    (x : json) (l : list json) :
    update_component_state (JList pre) None P = Ok (JList pre') →
    dict_get "props" it = Some (JDict props) →
    dict_get "children" props = Some (JList (x :: l)) →
    calls P (JList (pre ++ JDict it :: post)) (JList (x :: l)).

(** * Properties *)

(** ** Outcomes *)

Lemma bind_Ok {A B} (m : outcome A) (f : A → outcome B) (b : B) :
  m ≫= f = Ok b → ∃ a, m = Ok a ∧ f a = Ok b.
Proof. destruct m; simpl; intros; eauto; discriminate. Qed.

Lemma bind_Ok_l {A B} (m : outcome A) (f : A → outcome B) (a : A) :
  m = Ok a → m ≫= f = f a.
Proof. by intros ->. Qed.

Lemma bind_Raise_l {A B} (m : outcome A) (f : A → outcome B) (e : exn) :
  m = Raise e → m ≫= f = Raise e.
Proof. by intros ->. Qed.

(** ** Dictionaries *)

Section DictFacts.
Context {V : Type}.
Implicit Types (d q : list (string * V)) (k : string) (v : V).

Lemma dict_get_set_eq d k v : dict_get k (dict_set d k v) = Some v.
Proof.
  induction d as [|[k' v'] d IH]; simpl.
  - by rewrite String.eqb_refl.
  - destruct (String.eqb k' k) eqn:E; simpl; by rewrite E.
Qed.

Lemma dict_get_set_ne d k k' v :
  k ≠ k' → dict_get k' (dict_set d k v) = dict_get k' d.
Proof.
  intros Hne. induction d as [|[k0 v0] d IH]; simpl.
  - by apply String.eqb_neq in Hne as ->.
  - destruct (String.eqb k0 k) eqn:E; simpl.
    + apply String.eqb_eq in E as ->. by apply String.eqb_neq in Hne as ->.
    + by rewrite IH.
Qed.

Lemma dict_get_set d k k' v :
  dict_get k' (dict_set d k v) = if String.eqb k k' then Some v else dict_get k' d.
Proof.
  destruct (String.eqb k k') eqn:E.
  - apply String.eqb_eq in E as <-. apply dict_get_set_eq.
  - apply String.eqb_neq in E. by apply dict_get_set_ne.
Qed.

Lemma dict_contains_cons k k' v q :
  dict_contains k ((k', v) :: q) = String.eqb k' k || dict_contains k q.
Proof. unfold dict_contains; simpl. by destruct (String.eqb k' k). Qed.

(** Keys the other dictionary does not have keep their entry. *)
Lemma dict_get_update_other d q k :
  dict_contains k q = false → dict_get k (dict_update d q) = dict_get k d.
Proof.
  unfold dict_update. revert d.
  induction q as [|[k' v'] q IH]; intros d Hk; simpl; [done|].
  rewrite dict_contains_cons in Hk. apply orb_false_iff in Hk as [Hk' Hq].
  rewrite IH by done. apply dict_get_set_ne. by apply String.eqb_neq.
Qed.

(** The keys of the other dictionary are keys of the result. *)
Lemma dict_contains_update d q k :
  dict_contains k q = true → dict_contains k (dict_update d q) = true.
Proof.
  unfold dict_update. revert d.
  induction q as [|[k' v'] q IH]; intros d Hk; simpl; [done|].
  rewrite dict_contains_cons in Hk.
  destruct (dict_contains k q) eqn:Hq; [by apply IH|].
  rewrite orb_false_r in Hk. apply String.eqb_eq in Hk as ->.
  unfold dict_contains.
  change (fold_left _ q ?x) with (dict_update x q).
  rewrite dict_get_update_other by done. by rewrite dict_get_set_eq.
Qed.

(** With distinct keys, the other dictionary's entries are the result's. *)
Lemma dict_get_update_in d q k v :
  NoDup q.*1 → dict_get k q = Some v → dict_get k (dict_update d q) = Some v.
Proof.
  unfold dict_update. revert d.
  induction q as [|[k' v'] q IH]; intros d Hnd Hk; simpl in *; [done|].
  apply NoDup_cons in Hnd as [Hnotin Hnd].
  destruct (String.eqb k' k) eqn:E.
  - apply String.eqb_eq in E as ->. injection Hk as ->.
    change (fold_left _ q ?x) with (dict_update x q).
    rewrite dict_get_update_other; [apply dict_get_set_eq|].
    unfold dict_contains. destruct (dict_get k q) eqn:Hq; [|done].
    exfalso. apply Hnotin. clear -Hq.
    induction q as [|[k0 w0] q IH]; simpl in *; [done|].
    destruct (String.eqb k0 k) eqn:E.
    + apply String.eqb_eq in E as ->. by left.
    + right. by apply IH.
  - by apply IH.
Qed.
End DictFacts.

(** ** C2: the empty patch set *)

(** C2.  For every layout, [update_component_state] with an empty patch set
    returns the layout itself, whatever it is and whatever [updated] is: the
    first statement of the function returns before anything is read. *)
Theorem empty_patch_identity (layout : json) (updated : option (list json)) :
  update_component_state layout updated [] = Ok layout.
Proof. reflexivity. Qed.

(** ** The rewriter: unfolding and inversion *)

Lemma update_fuel_S (fuel : nat) (layout : json) (updated : option (list json))
    (kwargs : patches) :
  kwargs ≠ [] →
  update_fuel (S fuel) layout updated kwargs =
  update_body (λ l, update_fuel fuel l None kwargs) kwargs layout updated.
Proof. by destruct kwargs. Qed.

Ltac inv_ok :=
  repeat match goal with
  | H : Ok _ = Ok _ |- _ => injection H as H; try subst
  | H : Raise _ = Ok _ |- _ => discriminate H
  | H : OutOfFuel = Ok _ |- _ => discriminate H
  | H : _ ≫= _ = Ok _ |- _ => apply bind_Ok in H as (? & ? & H)
  end.

(** The loop appends one rewritten item per item, in order. *)
Lemma update_items_Ok rec kwargs (layout updated result : list json) :
  update_items rec kwargs layout updated = Ok result →
  ∃ items, result = updated ++ items ∧
           Forall2 (λ x y, update_item rec kwargs x = Ok y) layout items.
Proof.
  revert updated. induction layout as [|item rest IH]; intros updated H; simpl in H.
  - inv_ok. exists []. by rewrite app_nil_r.
  - inv_ok. apply IH in H as (items & -> & HF).
    eexists (_ :: items). rewrite <- app_assoc. split; [done|]. by constructor.
Qed.

(** What an item that the loop accepts looks like, and what is appended. *)
Lemma update_item_Ok rec kwargs (item item' : json) :
  update_item rec kwargs item = Ok item' →
  ∃ it props props1 id,
    item = JDict it ∧ dict_get "props" it = Some (JDict props) ∧
    (match default JNull (dict_get "children" props) with
     | JDict ((_ :: _) as c) =>
         ∃ c', update_dict_children rec c = Ok c' ∧
               props1 = dict_set props "children" (JDict c')
     | JList (_ :: _) as children =>
         ∃ r, rec children = Ok r ∧ props1 = dict_set props "children" r
     | _ => props1 = props
     end) ∧
    py_replace_dash (default (JStr "") (dict_get "id" props1)) = Ok id ∧
    item' = JDict (dict_set it "props"
                     (JDict (match dict_get id kwargs with
                             | Some patch => dict_update props1 patch
                             | None => props1
                             end))).
Proof.
  unfold update_item, item_props. intros H.
  destruct item as [| | | | |?|it]; try discriminate H.
  destruct (dict_get "props" it) as [p|] eqn:Hp; [|discriminate H].
  simpl in H. destruct p as [| | | | |?|props]; try discriminate H.
  apply bind_Ok in H as (props1 & H1 & H). apply bind_Ok in H as (id & Hid & H).
  exists it, props, props1, id. split_and!; try done.
  - destruct (default JNull (dict_get "children" props)) as [| | | | |[|??]|[|??]];
      inv_ok; eauto.
  - destruct (dict_get id kwargs); by inv_ok.
Qed.

(** The dictionary branch, step by step. *)
Lemma update_dict_Ok rec kwargs (layout : pydict) (result : json) :
  update_dict rec kwargs layout = Ok result →
  ∃ d1 d2,
    (match dict_get "children" layout with
     | Some c => ∃ r, rec c = Ok r ∧ d1 = dict_set layout "children" r
     | None => d1 = layout
     end) ∧
    (match dict_get "props" d1 with
     | Some p => ∃ r, rec p = Ok r ∧ d2 = dict_set d1 "props" r
     | None => d2 = d1
     end) ∧
    (match dict_get "id" d2 with
     | Some i =>
         ∃ id, py_replace_dash i = Ok id ∧
               result = JDict (match dict_get id kwargs with
                               | Some patch => dict_update d2 patch
                               | None => d2
                               end)
     | None => result = JDict d2
     end).
Proof.
  unfold update_dict. intros H.
  apply bind_Ok in H as (d1 & H1 & H). apply bind_Ok in H as (d2 & H2 & H).
  exists d1, d2. split_and!.
  - destruct (dict_get "children" layout); inv_ok; eauto.
  - destruct (dict_get "props" d1); inv_ok; eauto.
  - destruct (dict_get "id" d2); [|by inv_ok].
    apply bind_Ok in H as (id & Hid & H). exists id. split; [done|].
    destruct (dict_get id kwargs); by inv_ok.
Qed.

(** The shape test on dictionary-valued children. *)
Lemma update_dict_children_Ok rec (children c' : pydict) :
  update_dict_children rec children = Ok c' →
  ∃ k sub r, (k = "props" ∨ k = "children") ∧ dict_get k children = Some sub ∧
             rec sub = Ok r ∧ c' = dict_set children k r.
Proof.
  unfold update_dict_children. intros H. apply bind_Ok in H as (nested & _ & H).
  destruct (nested || dict_contains "props" children).
  - destruct (dict_get "props" children) as [cp|] eqn:E; inv_ok.
    exists "props", cp. eexists. split_and!; eauto.
  - destruct (dict_contains "children" children); [|discriminate H].
    destruct (dict_get "children" children) as [cc|] eqn:E; inv_ok.
    exists "children", cc. eexists. split_and!; eauto.
Qed.

(** ** C3: what a rewrite leaves alone *)

Lemma agree_on_refl keep (x : json) : agree_on keep x x.
Proof. by intros p _. Qed.

Lemma agree_on_trans keep (x y z : json) :
  agree_on keep x y → agree_on keep y z → agree_on keep x z.
Proof. intros H1 H2 p Hp. by rewrite H1, H2. Qed.

(** Replacing one entry by a document that agrees with it. *)
Lemma agree_dict_entry P (d0 d1 : pydict) k (v v' : json) :
  dict_get k d0 = Some v → dict_get k d1 = Some v →
  agree_on (touched P v) v v' →
  agree_on (touched P (JDict d0)) (JDict d1) (JDict (dict_set d1 k v')).
Proof.
  intros H0 H1 Hv [|[k'|i] p] Hp; simpl in *; [done| |done].
  apply orb_false_iff in Hp as [_ Hp].
  rewrite dict_get_set. destruct (String.eqb k k') eqn:E; [|done].
  apply String.eqb_eq in E as <-. rewrite H1. rewrite H0 in Hp. by apply Hv.
Qed.

(** Merging the patch of a dictionary's own id. *)
Lemma agree_dict_update P (d0 d1 patch : pydict) id :
  element_id d0 = Some id → dict_get id P = Some patch →
  agree_on (touched P (JDict d0)) (JDict d1) (JDict (dict_update d1 patch)).
Proof.
  intros Hid HP [|[k'|i] p] Hp; simpl in *; [done| |done].
  apply orb_false_iff in Hp as [Hk _].
  unfold patched_key in Hk. rewrite Hid, HP in Hk.
  by rewrite dict_get_update_other.
Qed.

Lemma agree_list P (l l' : list json) :
  Forall2 (λ x y, agree_on (touched P x) x y) l l' →
  agree_on (touched P (JList l)) (JList l) (JList l').
Proof.
  intros HF [|[k'|i] p] Hp; simpl in *; [|done|].
  - by rewrite (Forall2_length _ _ _ HF).
  - destruct (l !! i) as [x|] eqn:Hx.
    + destruct (Forall2_lookup_l _ _ _ _ _ HF Hx) as (y & -> & Hxy). by apply Hxy.
    + apply lookup_ge_None in Hx. rewrite (Forall2_length _ _ _ HF) in Hx.
      apply lookup_ge_None in Hx. by rewrite Hx.
Qed.

(** The id the code reads, when it can read one, is the dictionary's
    [element_id]. *)
Lemma element_id_default (d : pydict) id :
  py_replace_dash (default (JStr "") (dict_get "id" d)) = Ok id →
  element_id d = Some id.
Proof.
  unfold element_id. destruct (dict_get "id" d) as [[]|]; simpl; intros; by inv_ok.
Qed.

Lemma element_id_present (d : pydict) i id :
  dict_get "id" d = Some i → py_replace_dash i = Ok id → element_id d = Some id.
Proof.
  unfold element_id. intros ->. destruct i; simpl; intros; by inv_ok.
Qed.

Section Frame.
Variable rec : json → outcome json.
Variable P : patches.
Hypothesis rec_agree : ∀ x r, rec x = Ok r → agree_on (touched P x) x r.

Lemma update_dict_children_agree (c c' : pydict) :
  update_dict_children rec c = Ok c' →
  agree_on (touched P (JDict c)) (JDict c) (JDict c').
Proof using rec_agree.
  intros (k & sub & r & _ & Hk & Hr & ->)%update_dict_children_Ok.
  eapply agree_dict_entry; eauto.
Qed.

Lemma update_item_agree (item item' : json) :
  update_item rec P item = Ok item' → agree_on (touched P item) item item'.
Proof using rec_agree.
  intros (it & props & props1 & id & -> & Hprops & Hch & Hid & ->)%update_item_Ok.
  eapply agree_dict_entry; [done..|].
  assert (agree_on (touched P (JDict props)) (JDict props) (JDict props1) ∧
          dict_get "id" props1 = dict_get "id" props) as [H1 Hid1].
  { destruct (dict_get "children" props) as [ch|] eqn:Hc; simpl in Hch;
      [|subst; split; [apply agree_on_refl|done]].
    destruct ch as [| | | | |[|x l]|[|kv c]];
      try (subst; split; [apply agree_on_refl|done]).
    - destruct Hch as (r & Hr & ->). split; [|by rewrite dict_get_set_ne].
      eapply agree_dict_entry; eauto.
    - destruct Hch as (c' & Hc' & ->). split; [|by rewrite dict_get_set_ne].
      eapply agree_dict_entry; eauto using update_dict_children_agree. }
  rewrite Hid1 in Hid. apply element_id_default in Hid.
  eapply agree_on_trans; [exact H1|].
  destruct (dict_get id P) eqn:HP; [|apply agree_on_refl].
  by eapply agree_dict_update.
Qed.

Lemma update_dict_agree (d : pydict) (r : json) :
  update_dict rec P d = Ok r → agree_on (touched P (JDict d)) (JDict d) r.
Proof using rec_agree.
  intros (d1 & d2 & H1 & H2 & H3)%update_dict_Ok.
  assert (agree_on (touched P (JDict d)) (JDict d) (JDict d1) ∧
          (∀ k, k ≠ "children" → dict_get k d1 = dict_get k d)) as [A1 K1].
  { destruct (dict_get "children" d) eqn:E.
    - destruct H1 as (r1 & Hr1 & ->). split.
      + eapply agree_dict_entry; eauto.
      + intros k Hk. by rewrite dict_get_set_ne.
    - subst. split; [apply agree_on_refl|done]. }
  assert (agree_on (touched P (JDict d)) (JDict d1) (JDict d2) ∧
          (∀ k, k ≠ "props" → dict_get k d2 = dict_get k d1)) as [A2 K2].
  { destruct (dict_get "props" d1) eqn:E.
    - destruct H2 as (r2 & Hr2 & ->). split.
      + eapply agree_dict_entry; eauto. by rewrite <- K1.
      + intros k Hk. by rewrite dict_get_set_ne.
    - subst. split; [apply agree_on_refl|done]. }
  eapply agree_on_trans; [exact A1|]. eapply agree_on_trans; [exact A2|].
  rewrite K2, K1 in H3 by done.
  destruct (dict_get "id" d) eqn:E; [|subst; apply agree_on_refl].
  destruct H3 as (id & Hid & ->).
  destruct (dict_get id P) eqn:HP; [|apply agree_on_refl].
  eapply agree_dict_update; eauto using element_id_present.
Qed.

Lemma update_body_agree (x r : json) :
  update_body rec P x None = Ok r → agree_on (touched P x) x r.
Proof using rec_agree.
  destruct x as [| | | | |l|d]; simpl; intros H;
    try (inv_ok; apply agree_on_refl).
  - apply bind_Ok in H as (l' & H & Hr). inv_ok.
    apply update_items_Ok in H as (items & -> & HF). simpl.
    apply agree_list. eapply Forall2_impl; [exact HF|].
    intros ??. apply update_item_agree.
  - by apply update_dict_agree.
Qed.
End Frame.

Lemma update_fuel_agree P fuel (x r : json) :
  update_fuel fuel x None P = Ok r → agree_on (touched P x) x r.
Proof.
  revert x r. induction fuel as [|fuel IH]; intros x r H.
  - destruct P; simpl in H; inv_ok. apply agree_on_refl.
  - destruct P as [|kv P]; [simpl in H; inv_ok; apply agree_on_refl|].
    rewrite update_fuel_S in H by done.
    eapply update_body_agree; [|exact H]. intros. by apply IH.
Qed.

(** ** The recursion and its fuel *)

Lemma json_depth_entry (d : pydict) k (v : json) :
  dict_get k d = Some v → json_depth v < json_depth (JDict d).
Proof.
  simpl. induction d as [|[k' v'] d IH]; simpl; [done|].
  destruct (String.eqb k' k); intros H.
  - injection H as ->. lia.
  - apply IH in H. lia.
Qed.

Lemma json_depth_cons (x : json) (l : list json) :
  json_depth x < json_depth (JList (x :: l)) ∧
  json_depth (JList l) ≤ json_depth (JList (x :: l)).
Proof. simpl. lia. Qed.

Section Extensionality.
Variables rec1 rec2 : json → outcome json.
Variable P : patches.

Lemma update_dict_ext (d : pydict) :
  (∀ y, json_depth y < json_depth (JDict d) → rec1 y = rec2 y) →
  update_dict rec1 P d = update_dict rec2 P d.
Proof.
  intros Hrec. unfold update_dict.
  assert (∀ d1, (∀ k, k ≠ "children" → dict_get k d1 = dict_get k d) →
    (match dict_get "props" d1 with
     | Some p => r ← rec1 p; Ok (dict_set d1 "props" r)
     | None => Ok d1
     end) =
    (match dict_get "props" d1 with
     | Some p => r ← rec2 p; Ok (dict_set d1 "props" r)
     | None => Ok d1
     end)) as Hprops.
  { intros d1 Hd1. rewrite Hd1 by done.
    destruct (dict_get "props" d) eqn:E; [|done].
    rewrite Hrec; [done|]. by eapply json_depth_entry. }
  destruct (dict_get "children" d) as [c|] eqn:E.
  - rewrite (Hrec c) by (by eapply json_depth_entry).
    destruct (rec2 c) as [r| |]; simpl; [|done..].
    rewrite Hprops; [done|]. intros k Hk. by rewrite dict_get_set_ne.
  - simpl. by rewrite Hprops.
Qed.

Lemma update_dict_children_ext (c : pydict) :
  (∀ y, json_depth y < json_depth (JDict c) → rec1 y = rec2 y) →
  update_dict_children rec1 c = update_dict_children rec2 c.
Proof.
  intros Hrec. unfold update_dict_children.
  destruct (dict_get "props" c) as [cp|] eqn:Ep;
    destruct (dict_get "children" c) as [cc|] eqn:Ec;
    try rewrite (Hrec cp) by (by eapply json_depth_entry);
    try rewrite (Hrec cc) by (by eapply json_depth_entry); done.
Qed.

Lemma update_item_ext (item : json) :
  (∀ y, json_depth y < json_depth item → rec1 y = rec2 y) →
  update_item rec1 P item = update_item rec2 P item.
Proof.
  intros Hrec. unfold update_item.
  destruct (item_props item) as [props| |] eqn:Hp; simpl; [|done..].
  destruct props as [| | | | |?|props]; try done.
  destruct item as [| | | | |?|it]; try done.
  unfold item_props in Hp.
  destruct (dict_get "props" it) eqn:Hprops; inv_ok.
  pose proof (json_depth_entry _ _ _ Hprops) as Hlt.
  destruct (dict_get "children" props) as [ch|] eqn:Hch; simpl; [|done].
  pose proof (json_depth_entry _ _ _ Hch) as Hlt'.
  destruct ch as [| | | | |[|x l]|[|kv c]]; try done.
  - rewrite Hrec; [done|lia].
  - rewrite update_dict_children_ext; [done|]. intros y Hy. apply Hrec. lia.
Qed.

Lemma update_items_ext (l updated : list json) :
  (∀ y, json_depth y < json_depth (JList l) → rec1 y = rec2 y) →
  update_items rec1 P l updated = update_items rec2 P l updated.
Proof.
  revert updated. induction l as [|x l IH]; intros updated Hrec; [done|].
  pose proof (json_depth_cons x l) as [Hx Hl].
  cbn [update_items]. rewrite update_item_ext by (intros; apply Hrec; lia).
  destruct (update_item rec2 P x); simpl; [|done..].
  apply IH. intros. apply Hrec. lia.
Qed.

Lemma update_body_ext (x : json) (updated : option (list json)) :
  (∀ y, json_depth y < json_depth x → rec1 y = rec2 y) →
  update_body rec1 P x updated = update_body rec2 P x updated.
Proof.
  intros Hrec. destruct x; try done; cbn [update_body].
  - by rewrite update_items_ext.
  - by apply update_dict_ext.
Qed.
End Extensionality.

(** Any fuel above the depth of the document gives the same result. *)
Lemma update_fuel_depth (fuel : nat) (x : json) (updated : option (list json))
    (P : patches) :
  json_depth x < fuel →
  update_fuel fuel x updated P = update_component_state x updated P.
Proof.
  unfold update_component_state. revert x updated.
  induction (lt_wf fuel) as [fuel _ IH]. intros x updated Hlt.
  destruct P as [|kv P]; [by destruct fuel|].
  destruct fuel as [|fuel]; [lia|].
  rewrite !update_fuel_S by done. apply update_body_ext.
  intros y Hy. rewrite (IH fuel) by lia.
  rewrite (IH (json_depth x)) by lia. done.
Qed.

(** The function in terms of itself: the recursion equation of the source. *)
Lemma update_component_state_unfold (x : json) (updated : option (list json))
    (P : patches) :
  P ≠ [] →
  update_component_state x updated P =
  update_body (λ l, update_component_state l None P) P x updated.
Proof.
  intros HP. unfold update_component_state at 1. rewrite update_fuel_S by done.
  apply update_body_ext. intros y Hy. by apply update_fuel_depth.
Qed.

Section Returns.
Variable rec : json → outcome json.
Variable P : patches.

Lemma update_dict_returns (d : pydict) :
  (∀ y, json_depth y < json_depth (JDict d) → rec y ≠ OutOfFuel) →
  update_dict rec P d ≠ OutOfFuel.
Proof.
  intros Hrec. unfold update_dict.
  assert (∀ d2 : pydict,
            match dict_get "id" d2 with
            | Some i =>
                id ← py_replace_dash i;
                match dict_get id P with
                | Some patch => Ok (JDict (dict_update d2 patch))
                | None => Ok (JDict d2)
                end
            | None => Ok (JDict d2)
            end ≠ OutOfFuel) as Hid.
  { intros d2. destruct (dict_get "id" d2) as [[]|]; simpl; try done.
    by destruct (dict_get _ P). }
  assert (∀ d1, (∀ k, k ≠ "children" → dict_get k d1 = dict_get k d) →
            (match dict_get "props" d1 with
             | Some p => r ← rec p; Ok (dict_set d1 "props" r)
             | None => Ok d1
             end ≫= λ layout,
               match dict_get "id" layout with
               | Some i =>
                   id ← py_replace_dash i;
                   match dict_get id P with
                   | Some patch => Ok (JDict (dict_update layout patch))
                   | None => Ok (JDict layout)
                   end
               | None => Ok (JDict layout)
               end) ≠ OutOfFuel) as Hprops.
  { intros d1 Hd1. rewrite Hd1 by done.
    destruct (dict_get "props" d) as [p|] eqn:E; simpl; [|apply Hid].
    pose proof (Hrec p (json_depth_entry _ _ _ E)).
    destruct (rec p); simpl; [apply Hid|done..]. }
  destruct (dict_get "children" d) as [c|] eqn:E; simpl; [|by apply Hprops].
  pose proof (Hrec c (json_depth_entry _ _ _ E)).
  destruct (rec c); simpl; [|done..].
  apply Hprops. intros k Hk. by rewrite dict_get_set_ne.
Qed.

Lemma patch_item_returns (it props : pydict) : patch_item P it props ≠ OutOfFuel.
Proof.
  unfold patch_item.
  destruct (default (JStr "") (dict_get "id" props)); simpl; try done.
  by destruct (dict_get _ P).
Qed.

Lemma update_dict_children_returns (c : pydict) :
  (∀ y, json_depth y < json_depth (JDict c) → rec y ≠ OutOfFuel) →
  update_dict_children rec c ≠ OutOfFuel.
Proof.
  intros Hrec. unfold update_dict_children.
  destruct (py_in "children" _) as [nested| |] eqn:Hin; simpl; [|done|].
  2: { unfold py_in in Hin. by destruct (default _ _). }
  destruct (nested || dict_contains "props" c).
  - destruct (dict_get "props" c) as [cp|] eqn:E; [|done].
    pose proof (Hrec cp (json_depth_entry _ _ _ E)). by destruct (rec cp).
  - destruct (dict_contains "children" c); [|done].
    destruct (dict_get "children" c) as [cc|] eqn:E; [|done].
    pose proof (Hrec cc (json_depth_entry _ _ _ E)). by destruct (rec cc).
Qed.

Lemma update_item_returns (item : json) :
  (∀ y, json_depth y < json_depth item → rec y ≠ OutOfFuel) →
  update_item rec P item ≠ OutOfFuel.
Proof.
  intros Hrec. unfold update_item.
  destruct (item_props item) as [props| |] eqn:Hp; simpl; [|done|].
  2: { unfold item_props in Hp. destruct item; try done.
       by destruct (dict_get "props" _). }
  destruct props as [| | | | |?|props]; try done.
  destruct item as [| | | | |?|it]; try done.
  unfold item_props in Hp.
  destruct (dict_get "props" it) eqn:Hprops; inv_ok.
  pose proof (json_depth_entry _ _ _ Hprops) as Hlt.
  destruct (dict_get "children" props) as [ch|] eqn:Hch; simpl;
    [|apply patch_item_returns].
  pose proof (json_depth_entry _ _ _ Hch) as Hlt'.
  destruct ch as [| | | | |[|x l]|[|kv c]]; simpl; try apply patch_item_returns.
  - assert (rec (JList (x :: l)) ≠ OutOfFuel) by (apply Hrec; lia).
    destruct (rec (JList (x :: l))); simpl; [apply patch_item_returns|done..].
  - assert (update_dict_children rec (kv :: c) ≠ OutOfFuel).
    { apply update_dict_children_returns. intros y Hy. apply Hrec. lia. }
    destruct (update_dict_children rec (kv :: c)); simpl;
      [apply patch_item_returns|done..].
Qed.

Lemma update_items_returns (l updated : list json) :
  (∀ y, json_depth y < json_depth (JList l) → rec y ≠ OutOfFuel) →
  update_items rec P l updated ≠ OutOfFuel.
Proof.
  revert updated. induction l as [|x l IH]; intros updated Hrec; [done|].
  pose proof (json_depth_cons x l) as [Hx Hl].
  cbn [update_items].
  assert (update_item rec P x ≠ OutOfFuel).
  { apply update_item_returns. intros. apply Hrec. lia. }
  destruct (update_item rec P x); simpl; [|done..].
  apply IH. intros. apply Hrec. lia.
Qed.

Lemma update_body_returns (x : json) (updated : option (list json)) :
  (∀ y, json_depth y < json_depth x → rec y ≠ OutOfFuel) →
  update_body rec P x updated ≠ OutOfFuel.
Proof.
  intros Hrec. destruct x; try done; cbn [update_body].
  - pose proof (update_items_returns l (default [] updated) Hrec).
    by destruct (update_items rec P l _).
  - by apply update_dict_returns.
Qed.
End Returns.

(** The fuel of [update_component_state] is enough: it returns a layout or
    raises, on every layout. *)
Lemma update_component_state_returns (x : json) (updated : option (list json))
    (P : patches) :
  update_component_state x updated P ≠ OutOfFuel.
Proof.
  revert updated. remember (json_depth x) as n eqn:Hn. revert x Hn.
  induction (lt_wf n) as [n _ IH]. intros x -> updated.
  destruct P as [|kv P]; [done|].
  rewrite update_component_state_unfold by done.
  apply update_body_returns. intros y Hy. by eapply IH.
Qed.

(** The end-to-end scenario of the specification. *)
Example end_to_end :
  update_component_state sample_layout None sample_patches = Ok sample_result ∧
  get_path [Index 3; Key "props"; Key "children"; Index 0; Key "props"; Key "children"]
    sample_result = Some (JStr "it worked!!!").
Proof. split; reflexivity. Qed.

(** C3.  When [update_component_state(T, P)] returns [R], the two trees hold
    the same at every place that does not lie under a patched key of a
    dictionary whose normalized id is a key of [P]: the same scalar, a list of
    the same length, a dictionary, or nothing.  So only the props of matched
    elements change, and of these only the keys of the patch. *)
Theorem patch_isolation (T R : json) (P : patches) :
  update_component_state T None P = Ok R →
  ∀ p, touched P T p = false →
       shape_of (get_path p T) = shape_of (get_path p R).
Proof. intros H. by eapply update_fuel_agree. Qed.

Lemma patch_isolation_witness :
  shape_of (get_path [Index 3; Key "props"; Key "style"; Key "height"] sample_layout) =
  shape_of (get_path [Index 3; Key "props"; Key "style"; Key "height"] sample_result) ∧
  shape_of (get_path [Index 3; Key "props"; Key "children"; Index 0; Key "props"; Key "id"]
              sample_layout) =
  shape_of (get_path [Index 3; Key "props"; Key "children"; Index 0; Key "props"; Key "id"]
              sample_result).
Proof.
  split; apply (patch_isolation sample_layout sample_result sample_patches);
    reflexivity.
Defined.

(** ** C4: the id is normalized before the lookup *)

Lemma update_item_props_other rec (props props1 : pydict) :
  (match default JNull (dict_get "children" props) with
   | JDict ((_ :: _) as c) =>
       ∃ c', update_dict_children rec c = Ok c' ∧
             props1 = dict_set props "children" (JDict c')
   | JList (_ :: _) as children =>
       ∃ r, rec children = Ok r ∧ props1 = dict_set props "children" r
   | _ => props1 = props
   end) →
  ∀ k, k ≠ "children" → dict_get k props1 = dict_get k props.
Proof.
  intros H k Hk.
  destruct (default JNull (dict_get "children" props)) as [| | | | |[|??]|[|??]];
    try (by subst); destruct H as (? & _ & ->); by rewrite dict_get_set_ne.
Qed.

(** [id.replace("-", "_")] keeps the length and changes the hyphens, and
    only them. *)
Lemma normalize_id_chars (s : string) :
  String.length (normalize_id s) = String.length s ∧
  ∀ i, String.get i (normalize_id s) =
       (λ c, if Ascii.eqb c "-" then "_"%char else c) <$> String.get i s.
Proof.
  unfold normalize_id. induction s as [|c s [IHlen IHget]]; [by split|].
  cbn [str_replace]. destruct (Ascii.eqb c "-") eqn:E.
  - change ("_" +:+ ?x) with (String "_" x). split; [by simpl; rewrite IHlen|].
    intros [|i]; simpl; [by rewrite E|apply IHget].
  - split; [by simpl; rewrite IHlen|].
    intros [|i]; simpl; [by rewrite E|apply IHget].
Qed.

(** C4.  An element's id has every [-] replaced by [_] before it is looked up
    in the patch set: the normalized id has the length of the id, a [_]
    wherever the id has a [-], and the character of the id everywhere else.
    In a sequence, an item whose props carry the id [s] and for whose
    normalized id [P] holds a patch comes back with the patch merged into its
    props (the other keys of the props are those of the item, and [children]
    holds the rewritten children); a dictionary that carries the id itself
    comes back with the patch merged into it.  In particular the id
    ["my-id"] is looked up as ["my_id"]. *)
Theorem id_normalization (P : patches) (s : string) (patch : pydict) :
  (String.length (normalize_id s) = String.length s ∧
   ∀ i, String.get i (normalize_id s) =
        (λ c, if Ascii.eqb c "-" then "_"%char else c) <$> String.get i s) ∧
  (dict_get (normalize_id s) P = Some patch →
   (∀ l i it props R,
      l !! i = Some (JDict it) →
      dict_get "props" it = Some (JDict props) →
      dict_get "id" props = Some (JStr s) →
      update_component_state (JList l) None P = Ok R →
      ∃ l' it' props1,
        R = JList l' ∧ l' !! i = Some (JDict it') ∧
        (∀ k, k ≠ "children" → dict_get k props1 = dict_get k props) ∧
        dict_get "props" it' = Some (JDict (dict_update props1 patch))) ∧
   (∀ d updated R,
      dict_get "id" d = Some (JStr s) →
      update_component_state (JDict d) updated P = Ok R →
      ∃ d2,
        (∀ k, k ≠ "children" → k ≠ "props" → dict_get k d2 = dict_get k d) ∧
        R = JDict (dict_update d2 patch))) ∧
  normalize_id "my-id" = "my_id".
Proof.
  split_and!; [apply normalize_id_chars..| |done].
  intros HP. assert (P ≠ []) as Hne by (by intros ->). split.
  - intros l i it props R Hi Hprops Hid H.
    rewrite update_component_state_unfold in H by done. simpl in H.
    apply bind_Ok in H as (l' & H & HR). inv_ok.
    apply update_items_Ok in H as (items & -> & HF). simpl.
    destruct (Forall2_lookup_l _ _ _ _ _ HF Hi) as (y & Hy & Hitem).
    apply update_item_Ok in Hitem
      as (it0 & props0 & props1 & id & Hit & Hprops0 & Hch & Hid1 & ->).
    injection Hit as <-. rewrite Hprops in Hprops0. injection Hprops0 as <-.
    pose proof (update_item_props_other _ _ _ Hch) as Hother.
    rewrite Hother, Hid in Hid1 by done. simpl in Hid1. inv_ok.
    rewrite HP in Hy. eexists items, _, props1. split_and!; try done.
    by rewrite dict_get_set_eq.
  - intros d updated R Hid H.
    rewrite update_component_state_unfold in H by done. simpl in H.
    apply update_dict_Ok in H as (d1 & d2 & H1 & H2 & H3).
    assert (∀ k, k ≠ "children" → dict_get k d1 = dict_get k d) as K1.
    { intros k Hk. destruct (dict_get "children" d); [|by subst].
      destruct H1 as (? & _ & ->). by rewrite dict_get_set_ne. }
    assert (∀ k, k ≠ "props" → dict_get k d2 = dict_get k d1) as K2.
    { intros k Hk. destruct (dict_get "props" d1); [|by subst].
      destruct H2 as (? & _ & ->). by rewrite dict_get_set_ne. }
    rewrite K2, K1, Hid in H3 by done. destruct H3 as (id & Hid1 & ->).
    simpl in Hid1. inv_ok. rewrite HP. exists d2. split; [|done].
    intros k ??. by rewrite K2, K1.
Qed.

Lemma id_normalization_witness :
  ∃ l' it' props1,
    JList [component "Div" [("id", JStr "my-id"); ("title", JStr "new")]] = JList l' ∧
    l' !! 0 = Some (JDict it') ∧
    (∀ k, k ≠ "children" →
          dict_get k props1 = dict_get k [("id", JStr "my-id"); ("title", JStr "old")]) ∧
    dict_get "props" it' =
      Some (JDict (dict_update props1 [("title", JStr "new")])).
Proof.
  exact (proj1 (proj1 (proj2 (id_normalization [("my_id", [("title", JStr "new")])]
                                "my-id" [("title", JStr "new")])) eq_refl)
           [component "Div" [("id", JStr "my-id"); ("title", JStr "old")]] 0
           _ _ _ eq_refl eq_refl eq_refl eq_refl).
Defined.

(** ** C5: children of an unexpected shape *)

Lemma update_items_app rec P (l1 l2 updated : list json) :
  update_items rec P (l1 ++ l2) updated =
  updated' ← update_items rec P l1 updated; update_items rec P l2 updated'.
Proof.
  revert updated. induction l1 as [|x l1 IH]; intros updated; [done|].
  simpl. destruct (update_item rec P x); simpl; [|done..]. apply IH.
Qed.

Lemma update_dict_children_neither rec (c : pydict) :
  dict_get "props" c = None → dict_get "children" c = None →
  update_dict_children rec c = Raise ValueError.
Proof.
  intros Hp Hc. unfold update_dict_children, dict_contains. by rewrite Hp, Hc.
Qed.

Lemma update_dict_children_recognized rec (c : pydict) k (sub : json) :
  recognized_shape c = Some (k, sub) →
  dict_get k c = Some sub ∧
  update_dict_children rec c = r ← rec sub; Ok (dict_set c k r).
Proof.
  unfold recognized_shape, update_dict_children, dict_contains. intros H.
  destruct (dict_get "props" c) as [cp|] eqn:Hp.
  - assert (k = "props" ∧ sub = cp ∧ ∃ b, py_in "children" cp = Ok b)
      as (-> & -> & b & Hb).
    { destruct cp; simplify_eq; eauto. }
    split; [done|]. simpl. rewrite Hb. simpl. by rewrite orb_true_r.
  - destruct (dict_get "children" c) as [cc|] eqn:Hc; simplify_eq. done.
Qed.

(** The loop on a sequence whose items before [item] are accepted. *)
Lemma update_sequence_at P (pre pre' post : list json) (item : json) :
  P ≠ [] →
  update_component_state (JList pre) None P = Ok (JList pre') →
  update_component_state (JList (pre ++ item :: post)) None P =
  item' ← update_item (λ l, update_component_state l None P) P item;
  l' ← update_items (λ l, update_component_state l None P) P post (pre' ++ [item']);
  Ok (JList l').
Proof.
  intros HP Hpre. rewrite update_component_state_unfold in Hpre |- * by done.
  simpl in *. apply bind_Ok in Hpre as (l & Hl & Hpre). inv_ok.
  rewrite update_items_app, Hl. simpl.
  by destruct (update_item _ P item).
Qed.

(** An item whose children are a non-empty dictionary. *)
Lemma update_item_dict_children rec P (it props c : pydict) :
  dict_get "props" it = Some (JDict props) →
  dict_get "children" props = Some (JDict c) →
  c ≠ [] →
  update_item rec P (JDict it) =
  c' ← update_dict_children rec c;
  patch_item P it (dict_set props "children" (JDict c')).
Proof.
  intros Hp Hc Hne. unfold update_item, item_props. rewrite Hp. simpl.
  rewrite Hc. simpl. destruct c; [done|].
  by destruct (update_dict_children rec _).
Qed.

Lemma patch_item_no_ValueError P (it props : pydict) :
  patch_item P it props ≠ Raise ValueError.
Proof.
  unfold patch_item.
  destruct (default (JStr "") (dict_get "id" props)); simpl; try done.
  by destruct (dict_get _ P).
Qed.

(** An item whose children are the empty dictionary is an item without
    nested children. *)
Lemma update_item_empty_children rec P (it props : pydict) :
  dict_get "props" it = Some (JDict props) →
  dict_get "children" props = Some (JDict []) →
  update_item rec P (JDict it) = patch_item P it props.
Proof.
  intros Hp Hc. unfold update_item, item_props. rewrite Hp. simpl. by rewrite Hc.
Qed.

(** Children whose [props] is no container: the [in] test raises. *)
Lemma update_dict_children_TypeError rec (c : pydict) (v : json) :
  dict_get "props" c = Some v → is_container v = false →
  update_dict_children rec c = Raise TypeError.
Proof.
  intros Hp Hv. unfold update_dict_children. rewrite Hp. by destruct v.
Qed.

(** An exception of a call that the traversal makes is the exception of the
    traversal. *)
Lemma calls_raise (P : patches) (T T' : json) (e : exn) :
  P ≠ [] → calls P T T' →
  update_component_state T' None P = Raise e →
  update_component_state T None P = Raise e.
Proof.
  intros HP Hcalls He.
  destruct Hcalls as [d sub Hc|d sub Hc Hp|pre pre' post it props c k sub Hpre Hp Hc Hshape
                     |pre pre' post it props x l Hpre Hp Hc].
  - rewrite update_component_state_unfold by done. cbn [update_body].
    unfold update_dict. by rewrite Hc, He.
  - rewrite update_component_state_unfold by done. cbn [update_body].
    unfold update_dict. destruct (dict_get "children" d) as [ch|] eqn:E.
    + destruct (Hc ch eq_refl) as [r ->]. cbn [mbind outcome_mbind outcome_bind].
      rewrite dict_get_set_ne by done. by rewrite Hp, He.
    + cbn [mbind outcome_mbind outcome_bind]. by rewrite Hp, He.
  - assert (c ≠ []) as Hne by (by intros ->).
    rewrite (update_sequence_at _ _ _ _ _ HP Hpre).
    rewrite (update_item_dict_children _ _ _ _ _ Hp Hc Hne).
    destruct (update_dict_children_recognized
                (λ l, update_component_state l None P) _ _ _ Hshape) as [_ ->].
    by rewrite He.
  - rewrite (update_sequence_at _ _ _ _ _ HP Hpre).
    unfold update_item, item_props. rewrite Hp.
    cbn [mbind outcome_mbind outcome_bind]. rewrite Hc. cbn [default id].
    by rewrite He.
Qed.

Lemma reaches_raise (P : patches) (T T' : json) (e : exn) :
  P ≠ [] → rtc (calls P) T T' →
  update_component_state T' None P = Raise e →
  update_component_state T None P = Raise e.
Proof.
  intros HP Hreach. induction Hreach as [|x y z Hxy _ IH]; [done|].
  intros He. eapply calls_raise; eauto.
Qed.

(** C5, as the code has it.  With a non-empty patch set, let the traversal
    of [T] come, at whatever depth of its recursive calls, to a sequence and
    in it to an item (the items before it being accepted) whose children are
    a dictionary [c].
    - When [c] is not empty and has neither a [props] nor a [children] key,
      the traversal of [T] raises [ValueError].
    - When [c] is empty, the item is passed over: it is completed by the id
      lookup as an item without nested children.
    - When [c] has a [props] key whose value is no container ([None], a
      number or a boolean), the test [in] raises: the traversal of [T]
      raises [TypeError], and nothing is recursed into.
    - When [c] has one of the two recognized shapes, the call recurses into
      that substructure: an exception of the recursion is the exception of
      the traversal of [T], and when the recursion returns, the item is
      completed by the id lookup, with the result of the recursion under the
      key of the shape, and no [ValueError] arises from it. *)
Theorem malformed_children (P : patches) (T : json) (pre pre' post : list json)
    (it props c : pydict) :
  P ≠ [] →
  rtc (calls P) T (JList (pre ++ JDict it :: post)) →
  update_component_state (JList pre) None P = Ok (JList pre') →
  dict_get "props" it = Some (JDict props) →
  dict_get "children" props = Some (JDict c) →
  (c ≠ [] → dict_get "props" c = None → dict_get "children" c = None →
   update_component_state T None P = Raise ValueError) ∧
  (c = [] →
   update_component_state (JList (pre ++ [JDict it])) None P =
   (item' ← patch_item P it props; Ok (JList (pre' ++ [item'])))) ∧
  (∀ v, dict_get "props" c = Some v → is_container v = false →
        update_component_state T None P = Raise TypeError) ∧
  (∀ k sub, recognized_shape c = Some (k, sub) →
     (∀ e, update_component_state sub None P = Raise e →
           update_component_state T None P = Raise e) ∧
     (∀ r, update_component_state sub None P = Ok r →
           update_component_state (JList (pre ++ [JDict it])) None P =
           (item' ← patch_item P it
                      (dict_set props "children" (JDict (dict_set c k r)));
            Ok (JList (pre' ++ [item']))) ∧
           update_component_state (JList (pre ++ [JDict it])) None P
           ≠ Raise ValueError)).
Proof.
  intros HP Hreach Hpre Hprops Hch.
  pose proof (λ e, reaches_raise P _ _ e HP Hreach) as Hlift.
  split_and!.
  - intros Hne Hp Hc. apply Hlift.
    rewrite (update_sequence_at _ _ _ _ _ HP Hpre).
    rewrite (update_item_dict_children _ _ _ _ _ Hprops Hch Hne).
    by rewrite update_dict_children_neither.
  - intros ->. rewrite (update_sequence_at _ _ _ _ _ HP Hpre).
    rewrite (update_item_empty_children _ _ _ _ Hprops Hch).
    by destruct (patch_item P it props).
  - intros v Hp Hv. apply Hlift.
    assert (c ≠ []) as Hne by (by intros ->).
    rewrite (update_sequence_at _ _ _ _ _ HP Hpre).
    rewrite (update_item_dict_children _ _ _ _ _ Hprops Hch Hne).
    by rewrite (update_dict_children_TypeError _ _ _ Hp Hv).
  - intros k sub Hshape. assert (c ≠ []) as Hne by (by intros ->). split.
    + intros e He. apply Hlift.
      rewrite (update_sequence_at _ _ _ _ _ HP Hpre).
      rewrite (update_item_dict_children _ _ _ _ _ Hprops Hch Hne).
      destruct (update_dict_children_recognized
                  (λ l, update_component_state l None P) _ _ _ Hshape) as [_ ->].
      by rewrite He.
    + intros r Hr.
      assert (update_component_state (JList (pre ++ [JDict it])) None P =
              (item' ← patch_item P it
                         (dict_set props "children" (JDict (dict_set c k r)));
               Ok (JList (pre' ++ [item'])))) as Heq.
      { rewrite (update_sequence_at _ _ _ _ _ HP Hpre).
        rewrite (update_item_dict_children _ _ _ _ _ Hprops Hch Hne).
        destruct (update_dict_children_recognized
                    (λ l, update_component_state l None P) _ _ _ Hshape) as [_ ->].
        rewrite Hr. simpl. by destruct (patch_item P it _). }
      split; [done|]. rewrite Heq.
      pose proof (patch_item_no_ValueError P it
                    (dict_set props "children" (JDict (dict_set c k r)))).
      by destruct (patch_item P it _) as [?|[]|].
Qed.

Lemma malformed_children_witness :
  update_component_state
    (JList [component "Div"
              [("children",
                JList [component "H1" [("children", JStr "Title")];
                       JDict [("props",
                               JDict [("children", JDict [("figure", JNull)])])];
                       JInt 0])]])
    None sample_patches = Raise ValueError.
Proof.
  refine (proj1 (malformed_children sample_patches _
                   [component "H1" [("children", JStr "Title")]]
                   [component "H1" [("children", JStr "Title")]] [JInt 0]
                   [("props", JDict [("children", JDict [("figure", JNull)])])]
                   [("children", JDict [("figure", JNull)])]
                   [("figure", JNull)] _ _ eq_refl eq_refl eq_refl)
            _ eq_refl eq_refl); [discriminate| |discriminate].
  eapply rtc_l; [|apply rtc_refl].
  exact (calls_item_list sample_patches [] [] []
           [("props",
             JDict [("children",
                     JList [component "H1" [("children", JStr "Title")];
                            JDict [("props",
                                    JDict [("children", JDict [("figure", JNull)])])];
                            JInt 0])]);
            ("type", JStr "Div"); ("namespace", JStr "dash_html_components")]
           _ _ _ eq_refl eq_refl eq_refl).
Defined.

(** C5 as the specification words it fails: empty dictionary-valued
    children match neither shape and are passed over without an error;
    children of a recognized shape do not keep the call from raising; and
    children whose [props] is [None] make the call raise [TypeError] before
    anything is recursed into. *)
Lemma malformed_children_counterexample :
  (dict_get "children" [("children", JDict [])] = Some (JDict []) ∧
   dict_get "props" ([] : pydict) = None ∧
   dict_get "children" ([] : pydict) = None ∧
   update_component_state (JList [component "Div" [("children", JDict [])]])
     None sample_patches
   = Ok (JList [component "Div" [("children", JDict [])]])) ∧
  (recognized_shape [("props", JDict [("children", JInt 5)]); ("type", JStr "Span")]
   = Some ("props", JDict [("children", JInt 5)]) ∧
   update_component_state
     (JList [component "Div"
               [("children",
                 JDict [("props", JDict [("children", JInt 5)]); ("type", JStr "Span")])]])
     None sample_patches
   = Raise TypeError) ∧
  update_component_state
    (JList [component "Div" [("children", JDict [("props", JNull)])]])
    None sample_patches
  = Raise TypeError.
Proof. repeat split. Qed.

(** ** C9: [parse_query_string] *)

Section DictKeys.
Context {V : Type}.
Implicit Types (d : list (string * V)) (k : string) (v : V).

Lemma dict_get_None d k : dict_get k d = None ↔ k ∉ d.*1.
Proof.
  induction d as [|[k' v'] d IH]; csimpl.
  - split; [intros _; apply not_elem_of_nil|done].
  - rewrite not_elem_of_cons. destruct (String.eqb k' k) eqn:E.
    + apply String.eqb_eq in E as ->. split; [done|]. by intros [? _].
    + apply String.eqb_neq in E. rewrite IH.
      split; [intros ?; split; [by intros ->|done]|by intros [_ ?]].
Qed.

Lemma dict_set_keys d k v :
  (dict_set d k v).*1 = if dict_contains k d then d.*1 else d.*1 ++ [k].
Proof.
  unfold dict_contains. induction d as [|[k' v'] d IH]; csimpl; [done|].
  destruct (String.eqb k' k) eqn:E; csimpl; [done|].
  rewrite IH. by destruct (dict_get k d).
Qed.

Lemma dict_set_NoDup d k v : NoDup d.*1 → NoDup (dict_set d k v).*1.
Proof.
  intros Hd. rewrite dict_set_keys. unfold dict_contains.
  destruct (dict_get k d) eqn:E; [done|].
  apply dict_get_None in E. apply NoDup_app. split_and!; [done| |apply NoDup_singleton].
  intros x Hx ->%list_elem_of_singleton. done.
Qed.
End DictKeys.

(** The values [parse_qs] has gathered for a key: none when it has no entry. *)
Lemma parse_qs_add_values (d : list (string * list string)) (nv : string * string) k :
  default [] (dict_get k (parse_qs_add d nv)) =
  default [] (dict_get k d) ++ (if decide (nv.1 = k) then [nv.2] else []).
Proof.
  unfold parse_qs_add. destruct nv as [n v]; simpl.
  destruct (decide (n = k)) as [->|Hne].
  - destruct (dict_get k d) eqn:E; by rewrite dict_get_set_eq.
  - destruct (dict_get n d); rewrite dict_get_set_ne by done; by rewrite app_nil_r.
Qed.

Lemma parse_qs_add_nonempty (d : list (string * list string)) (nv : string * string) :
  (∀ k, dict_get k d ≠ Some []) → ∀ k, dict_get k (parse_qs_add d nv) ≠ Some [].
Proof.
  intros Hd k. unfold parse_qs_add. destruct nv as [n v]; simpl.
  destruct (dict_get n d) as [vs|] eqn:E; rewrite dict_get_set;
    destruct (String.eqb n k); try apply Hd; [by destruct vs|done].
Qed.

Lemma parse_qs_add_NoDup (d : list (string * list string)) (nv : string * string) :
  NoDup d.*1 → NoDup (parse_qs_add d nv).*1.
Proof.
  intros Hd. unfold parse_qs_add. destruct (dict_get nv.1 d); by apply dict_set_NoDup.
Qed.

Lemma parse_qs_fold (pairs : list (string * string)) (d : list (string * list string)) :
  NoDup d.*1 → (∀ k, dict_get k d ≠ Some []) →
  let d' := fold_left parse_qs_add pairs d in
  NoDup d'.*1 ∧ (∀ k, dict_get k d' ≠ Some []) ∧
  ∀ k, default [] (dict_get k d') = default [] (dict_get k d) ++ values_of k pairs.
Proof.
  revert d. induction pairs as [|nv pairs IH]; intros d Hnd Hne; simpl.
  - split_and!; try done. intros k. by rewrite app_nil_r.
  - destruct (IH (parse_qs_add d nv)) as (H1 & H2 & H3);
      [by apply parse_qs_add_NoDup|by apply parse_qs_add_nonempty|].
    split_and!; try done. intros k. rewrite H3, parse_qs_add_values.
    rewrite <- app_assoc. f_equal. unfold values_of.
    rewrite filter_cons. by destruct (decide (nv.1 = k)).
Qed.

(** [parse_qs] maps each name to all of its values, in order, with no name
    twice. *)
Lemma parse_qs_values (qs : string) :
  NoDup (parse_qs qs).*1 ∧
  ∀ k, dict_get k (parse_qs qs) =
       match values_of k (parse_qsl qs) with [] => None | vs => Some vs end.
Proof.
  destruct (parse_qs_fold (parse_qsl qs) []) as (H1 & H2 & H3);
    [apply NoDup_nil_2|done|].
  split; [done|]. intros k. specialize (H3 k). specialize (H2 k).
  simpl in H3. rewrite <- H3. unfold parse_qs.
  destruct (dict_get k _) as [[|v vs]|]; done.
Qed.

(** The comprehension keeps the first value of every entry. *)
Lemma first_values_Ok (items : list (string * list string))
    (result_dict : list (string * string)) :
  NoDup items.*1 → (∀ k, dict_get k items ≠ Some []) →
  ∃ q, first_values items result_dict = Ok q ∧
       ∀ k, dict_get k q =
            match dict_get k items with
            | Some vs => head vs
            | None => dict_get k result_dict
            end.
Proof.
  revert result_dict.
  induction items as [|[k0 vs0] items IH]; intros acc Hnd Hne; simpl.
  - by exists acc.
  - csimpl in Hnd. apply NoDup_cons in Hnd as [Hk0 Hnd].
    destruct vs0 as [|v vs0].
    { specialize (Hne k0). simpl in Hne. by rewrite String.eqb_refl in Hne. }
    simpl. destruct (IH (dict_set acc k0 v) Hnd) as (q & Hq & Hget).
    { intros k. specialize (Hne k). simpl in Hne.
      destruct (String.eqb k0 k) eqn:E; [|done].
      apply String.eqb_eq in E as <-. apply dict_get_None in Hk0. by rewrite Hk0. }
    exists q. split; [done|]. intros k. rewrite Hget.
    destruct (String.eqb k0 k) eqn:E.
    + apply String.eqb_eq in E as <-. apply dict_get_None in Hk0.
      by rewrite Hk0, dict_get_set_eq.
    + apply String.eqb_neq in E. by rewrite dict_get_set_ne.
Qed.

Lemma str_replace_removes (c : ascii) (s : string) :
  str_contains (String c EmptyString) (str_replace c "" s) = false.
Proof.
  induction s as [|c' s IH]; [done|]. simpl.
  destruct (Ascii.eqb c' c) eqn:E; [done|]. simpl.
  rewrite IH, orb_false_r. destruct (ascii_dec c c') as [->|]; [|done].
  by rewrite Ascii.eqb_refl in E.
Qed.

(** C9.  For every query string, [parse_query_string] returns a dictionary
    (it raises nothing) that maps each key to the first of the values the
    query gives it, the later ones being dropped; and the text that is parsed
    is the input with every [?] removed, wherever it stands. *)
Theorem parse_query_string_first_value (qs : string) :
  ∃ q, parse_query_string qs = Ok q ∧
       (∀ key, dict_get key q =
               head (values_of key (parse_qsl (str_replace "?"%char "" qs)))) ∧
       str_contains "?" (str_replace "?"%char "" qs) = false.
Proof.
  unfold parse_query_string.
  destruct (parse_qs_values (str_replace "?"%char "" qs)) as [Hnd Hget].
  destruct (first_values_Ok (parse_qs (str_replace "?"%char "" qs)) [] Hnd)
    as (q & Hq & Hq').
  { intros k. rewrite Hget. by destruct (values_of _ _). }
  exists q. split_and!; [done| |apply str_replace_removes].
  intros key. rewrite Hq', Hget. by destruct (values_of _ _).
Qed.

Example parse_query_string_repeated :
  parse_query_string "?state=ab12&x=1&state=ffff&?y=%3F" =
  Ok [("state", "ab12"); ("x", "1"); ("y", "?")].
Proof. reflexivity. Qed.

(** ** Opening a record *)

Lemma str_contains_char_cons (a c : ascii) (r : string) :
  str_contains (String a EmptyString) (String c r) =
  (if ascii_dec a c then true else false) || str_contains (String a EmptyString) r.
Proof.
  cbn [str_contains String.prefix]. destruct (ascii_dec a c); [by destruct r|done].
Qed.

Lemma str_forall_impl (f g : ascii → bool) (s : string) :
  (∀ c, f c = true → g c = true) → str_forall f s = true → str_forall g s = true.
Proof.
  intros Hfg. induction s as [|c s IH]; [done|]. simpl.
  intros [Hc Hs]%andb_true_iff. by rewrite Hfg, IH.
Qed.

Lemma str_split_absent (c : ascii) (s : string) :
  str_forall (λ x, negb (Ascii.eqb x c)) s = true → str_split c s = [s].
Proof.
  induction s as [|x s IH]; [done|]. simpl.
  intros [Hx Hs]%andb_true_iff. apply negb_true_iff in Hx. by rewrite Hx, IH.
Qed.

Lemma str_contains_absent (c : ascii) (s : string) :
  str_forall (λ x, negb (Ascii.eqb x c)) s = true →
  str_contains (String c EmptyString) s = false.
Proof.
  induction s as [|x s IH]; [done|].
  cbn [str_forall]. intros [Hx Hs]%andb_true_iff. apply negb_true_iff in Hx.
  rewrite str_contains_char_cons, IH, orb_false_r by done.
  destruct (ascii_dec c x) as [->|]; [|done]. by rewrite Ascii.eqb_refl in Hx.
Qed.

Lemma append_cons (c : ascii) (s t : string) :
  String c s +:+ t = String c (s +:+ t).
Proof. reflexivity. Qed.

Lemma append_nil (t : string) : "" +:+ t = t.
Proof. reflexivity. Qed.

Lemma str_forall_app (f : ascii → bool) (s t : string) :
  str_forall f (s +:+ t) = str_forall f s && str_forall f t.
Proof.
  induction s as [|c s IH]; [done|].
  rewrite append_cons. cbn [str_forall]. by rewrite IH, andb_assoc.
Qed.

Lemma str_length_app (s t : string) :
  String.length (s +:+ t) = String.length s + String.length t.
Proof.
  induction s as [|c s IH]; [done|]. rewrite append_cons. simpl. by rewrite IH.
Qed.

Lemma append_nil_r (s : string) : s +:+ "" = s.
Proof. induction s as [|c s IH]; [done|]. by rewrite append_cons, IH. Qed.

Lemma share_path_length (h : string) :
  String.length (share_path h) = String.length h + 13.
Proof. unfold share_path. rewrite !str_length_app. simpl. lia. Qed.

Lemma share_path_no_nul (h : string) :
  str_forall (λ x, negb (Ascii.eqb x "000")) h = true →
  str_contains (String "000" "") (share_path h) = false.
Proof.
  intros Hh. apply str_contains_absent. unfold share_path.
  by rewrite !str_forall_app, Hh.
Qed.

Lemma share_path_names (h : string) :
  str_forall (λ x, negb (Ascii.eqb x "/")) h = true →
  str_split "/" (share_path h) = ["."; "share"; h +:+ ".json"].
Proof.
  intros Hh. unfold share_path. rewrite !append_cons, append_nil.
  cbn [str_split Ascii.eqb Bool.eqb].
  rewrite str_split_absent; [done|]. by rewrite str_forall_app, Hh.
Qed.

Lemma name_char_split (h : string) :
  str_forall name_char h = true →
  str_forall (λ x, negb (Ascii.eqb x "000")) h = true ∧
  str_forall (λ x, negb (Ascii.eqb x "/")) h = true.
Proof.
  intros H. split; (eapply str_forall_impl; [|exact H]);
    intros c [??]%andb_true_iff; done.
Qed.


Lemma open_rb_stored_cases (fs : filesystem) (path : string) (doc : json) :
  files fs !! path = Some doc →
  open_rb fs path = Ok doc ∨ open_rb fs path = Raise ValueError ∨
  open_rb fs path = Raise OSError.
Proof.
  intros Hfile. unfold open_rb. rewrite Hfile.
  repeat case_match; auto.
Qed.

(** A name that can be a file's and has no record is missing: [ENOENT]. *)
Lemma open_rb_missing (fs : filesystem) (h : string) :
  file_name h = true →
  files fs !! share_path h = None →
  files fs !! "./share" = None →
  open_rb fs (share_path h) = Raise FileNotFoundError.
Proof.
  intros [Hname Hlen%Nat.leb_le]%andb_true_iff Hfile Hshare.
  destruct (name_char_split _ Hname) as [Hnul Hslash].
  unfold NAME_MAX in Hlen. unfold open_rb.
  rewrite share_path_no_nul, share_path_length by done.
  assert ((PATH_MAX <=? String.length h + 13) = false) as ->
    by (apply Nat.leb_gt; unfold PATH_MAX; lia).
  rewrite Hfile, share_path_names by done.
  cbn [walk enter String.eqb Ascii.eqb Bool.eqb orb mbind outcome_mbind outcome_bind].
  change (NAME_MAX <? String.length "share") with false. cbv iota.
  change (path_of ([] ++ ["share"])) with "./share".
  destruct (share_dir fs); cbn [andb]; [|by rewrite Hshare].
  rewrite bool_decide_eq_true_2 by done.
  cbn [mbind outcome_mbind outcome_bind].
  assert (5 ≤ String.length (h +:+ ".json")) as Hfive
    by (rewrite str_length_app; simpl; lia).
  assert (∀ t, String.length t < 5 → String.eqb (h +:+ ".json") t = false) as Hne.
  { intros t Ht. apply String.eqb_neq. intros E. rewrite E in Hfive. lia. }
  rewrite !Hne by (simpl; lia). cbn [orb].
  assert ((NAME_MAX <? String.length (h +:+ ".json")) = false) as ->.
  { apply Nat.ltb_ge. rewrite str_length_app. unfold NAME_MAX. simpl. lia. }
  rewrite bool_decide_eq_false_2 by done. cbn [andb].
  assert (path_of (([] ++ ["share"]) ++ [h +:+ ".json"]) = share_path h) as ->.
  { unfold path_of, share_path. cbn [app foldr].
    by rewrite !append_cons, !append_nil, append_nil_r. }
  by rewrite Hfile.
Qed.


(** ** C6: loading a fingerprint that was never stored *)

(** C6, as the code has it.  [FileShare.load] catches [FileNotFoundError]
    and nothing else.  When the query of a load request names a fingerprint
    [h] and opening [./share/<h>.json] fails with [FileNotFoundError], the
    state that was given is returned and nothing is raised; any other
    failure of the open surfaces.  The first is the case whenever [h] can
    be the name of a file (no NUL byte, no [/], at most 250 bytes), no
    record is stored under it and [./share] is not itself a file. *)
Theorem load_fallback (self : FileShare) (fs : filesystem) (input h : string)
    (state : json) :
  requested_fingerprint input = Some h →
  (open_rb fs (share_path h) = Raise FileNotFoundError →
   FileShare_load self fs (JStr input) state = Ok state) ∧
  (∀ e, open_rb fs (share_path h) = Raise e → e ≠ FileNotFoundError →
        FileShare_load self fs (JStr input) state = Raise e) ∧
  (file_name h = true →
   files fs !! share_path h = None →
   files fs !! "./share" = None →
   FileShare_load self fs (JStr input) state = Ok state).
Proof.
  unfold requested_fingerprint, FileShare_load. intros Hq.
  destruct (parse_query_string input) as [q| |]; [|done..]. simpl.
  rewrite Hq. split_and!.
  - by intros ->.
  - intros e -> He. by destruct e.
  - intros Hname Hfile Hshare. by rewrite open_rb_missing.
Qed.

Lemma load_fallback_witness :
  FileShare_load
    {| base := new_DashShare ("url", "search") ("share", "n_clicks")
                 ("share", "n_clicks") "url";
       update_components := mapping [] |}
    {| share_dir := true; files := {[ share_path "00c0ffee" := sample_layout ]} |}
    (JStr "?state=9933a0b9") sample_result
  = Ok sample_result.
Proof.
  apply (proj2 (proj2 (load_fallback _ _ "?state=9933a0b9" "9933a0b9" _ eq_refl)));
    reflexivity.
Defined.

(** The claim as it was stated fails where the name of the query cannot be
    opened at all: a NUL byte ([?state=%00]) makes [open] raise
    [ValueError], a name of more than 255 bytes [OSError], and a path
    through a stored file [NotADirectoryError]; no record corresponds to
    any of the three, and [load] raises. *)
Lemma load_fallback_counterexample :
  requested_fingerprint "?state=%00" = Some (String "000" "") ∧
  files {| share_dir := true;
           files := {[ share_path "00c0ffee" := sample_layout ]} |}
    !! share_path (String "000" "") = None ∧
  FileShare_load graph_share
    {| share_dir := true; files := {[ share_path "00c0ffee" := sample_layout ]} |}
    (JStr "?state=%00") sample_result
  = Raise ValueError ∧
  requested_fingerprint "?state=00c0ffee.json/x" = Some "00c0ffee.json/x" ∧
  files {| share_dir := true;
           files := {[ share_path "00c0ffee" := sample_layout ]} |}
    !! share_path "00c0ffee.json/x" = None ∧
  FileShare_load graph_share
    {| share_dir := true; files := {[ share_path "00c0ffee" := sample_layout ]} |}
    (JStr "?state=00c0ffee.json/x") sample_result
  = Raise NotADirectoryError.
Proof. split_and!; by vm_compute. Qed.

(** ** C10: the length of a fingerprint *)

Lemma hex_of_bytes_length (bs : list Z) :
  String.length (hex_of_bytes bs) = 2 * length bs.
Proof. induction bs as [|b bs IH]; simpl; [done|]. rewrite IH. lia. Qed.

Lemma squeeze_length (blocks : nat) (st : list Z) :
  length (Keccak.squeeze blocks st) = blocks * Keccak.rate.
Proof.
  revert st. induction blocks as [|n IH]; intros st; [done|].
  cbn [Keccak.squeeze].
  rewrite length_app, length_map, length_seq, IH. unfold Keccak.rate. lia.
Qed.

(** SHAKE128 gives as many bytes as it is asked for. *)
Lemma shake_128_length (msg : list Z) (k : nat) :
  length (Keccak.shake_128 msg k) = k.
Proof.
  unfold Keccak.shake_128. rewrite length_take, squeeze_length.
  unfold Keccak.rate.
  pose proof (Nat.div_mod k 168 ltac:(done)).
  pose proof (Nat.mod_upper_bound k 168 ltac:(done)). lia.
Qed.

Lemma int_half_small (n : Z) :
  (0 ≤ n < 2 ^ 53)%Z → int_half n = Ok (n / 2)%Z.
Proof.
  intros [Hn0 Hn]. unfold int_half. rewrite Z.abs_eq by done.
  assert (Z.log2 n + 1 ≤ 53)%Z as Hbits.
  { destruct (decide (n = 0%Z)) as [->|]; [done|].
    assert (Z.log2 n < 53)%Z; [|lia]. apply Z.log2_lt_pow2; lia. }
  apply Z.leb_le in Hbits. rewrite Hbits.
  by rewrite Z.quot_div_nonneg by lia.
Qed.

Lemma hex_digit_is_hex (d : Z) : (0 ≤ d < 16)%Z → is_hex_char (hex_digit d) = true.
Proof.
  intros Hd. assert (∃ i, i < 16 ∧ d = Z.of_nat i) as (i & Hi & ->).
  { exists (Z.to_nat d). lia. }
  do 16 (destruct i as [|i]; [reflexivity|]). lia.
Qed.

Lemma hex_of_bytes_is_hex (bs : list Z) :
  Forall (λ b, 0 ≤ b < 256)%Z bs → str_forall is_hex_char (hex_of_bytes bs) = true.
Proof.
  induction 1 as [|b bs Hb _ IH]; [done|]. cbn [hex_of_bytes foldr str_forall].
  change (foldr _ _ bs) with (hex_of_bytes bs). rewrite IH.
  rewrite !hex_digit_is_hex; [done| |].
  - change 15%Z with (Z.ones 4). rewrite Z.land_ones by lia.
    apply Z.mod_pos_bound. lia.
  - rewrite Z.shiftr_div_pow2 by lia. split; [apply Z.div_pos; lia|].
    apply Z.div_lt_upper_bound; lia.
Qed.

Lemma squeeze_bytes (blocks : nat) (st : list Z) :
  Forall (λ b, 0 ≤ b < 256)%Z (Keccak.squeeze blocks st).
Proof.
  revert st. induction blocks as [|n IH]; intros st; [constructor|].
  cbn [Keccak.squeeze]. apply Forall_app. split; [|apply IH].
  apply Forall_forall. intros b (i & -> & _)%list_elem_of_fmap.
  unfold Keccak.state_byte. change 255%Z with (Z.ones 8).
  rewrite Z.land_ones by lia. apply Z.mod_pos_bound. lia.
Qed.

Lemma encode_hex (state : json) (n : Z) (h : string) :
  encode state n = Ok h → str_forall is_hex_char h = true.
Proof.
  unfold encode. intros (k & _ & H)%bind_Ok. unfold shake_128_hexdigest in H.
  destruct (k <? 0)%Z; [done|]. destruct (2 ^ 63 <=? k)%Z; [done|].
  injection H as <-. apply hex_of_bytes_is_hex.
  unfold Keccak.shake_128. apply Forall_take, squeeze_bytes.
Qed.

(** C10, as the code has it.  For every state and every requested number
    of characters [n] that is a count (not negative, and within the integers
    a float holds exactly), [encode] returns a string of exactly
    [2 * (n // 2)] characters, each of them one of [0-9a-f]; for an odd [n]
    that is [n - 1] characters, never [n].  Below 0 the length is not
    [2 * (n // 2)]: for [n = -1] the string is empty. *)
Theorem encode_length (state : json) (n : Z) :
  ((0 ≤ n < 2 ^ 53)%Z →
   ∃ s, encode state n = Ok s ∧
        str_forall is_hex_char s = true ∧
        Z.of_nat (String.length s) = (2 * (n / 2))%Z ∧
        (Z.odd n = true →
         Z.of_nat (String.length s) = (n - 1)%Z ∧
         Z.of_nat (String.length s) ≠ n)) ∧
  encode state (-1) = Ok "".
Proof.
  split; [|reflexivity].
  intros Hn.
  assert (encode state n =
          Ok (hex_of_bytes (Keccak.shake_128 (bytes_of_string (dumps state))
                              (Z.to_nat (n / 2))))) as Henc.
  { unfold encode. rewrite int_half_small by done.
    cbn [mbind outcome_mbind outcome_bind]. unfold shake_128_hexdigest.
    assert (0 ≤ n / 2 < 2 ^ 53)%Z as Hk.
    { split; [apply Z.div_pos; lia|]. apply Z.div_lt_upper_bound; lia. }
    assert ((n / 2 <? 0)%Z = false) as -> by (apply Z.ltb_ge; lia).
    assert ((2 ^ 63 <=? n / 2)%Z = false) as ->; [|done].
    apply Z.leb_gt. eapply Z.lt_trans; [apply Hk|done]. }
  eexists. split; [exact Henc|]. split; [by eapply encode_hex|].
  rewrite hex_of_bytes_length, shake_128_length.
  assert (Z.of_nat (2 * Z.to_nat (n / 2)) = (2 * (n / 2))%Z) as Hlen.
  { assert (0 ≤ n / 2)%Z by (apply Z.div_pos; lia). lia. }
  split; [done|]. intros Hodd. rewrite Hlen.
  pose proof (Z.div2_odd n) as Hdiv. rewrite Hodd, Z.div2_div in Hdiv.
  simpl in Hdiv. lia.
Qed.

Lemma encode_length_witness :
  ∃ s, encode sample_layout 7 = Ok s ∧
       str_forall is_hex_char s = true ∧
       Z.of_nat (String.length s) = (2 * (7 / 2))%Z ∧
       (Z.odd 7 = true →
        Z.of_nat (String.length s) = (7 - 1)%Z ∧ Z.of_nat (String.length s) ≠ 7%Z).
Proof.
  apply (proj1 (encode_length sample_layout 7)). split; [lia|reflexivity].
Defined.

(** C10 as the specification words it, for every [n], fails below 0: asked
    for -1 characters [encode] returns the empty string, of 0 characters,
    where [2 * (n // 2)] is -2 and [n - 1] is -2. *)
Lemma encode_length_counterexample :
  encode sample_layout (-1) = Ok "" ∧
  Z.of_nat (String.length "") ≠ (2 * (-1 / 2))%Z ∧
  Z.odd (-1) = true ∧
  Z.of_nat (String.length "") ≠ (-1 - 1)%Z.
Proof. split_and!; [reflexivity|discriminate|reflexivity|discriminate]. Qed.

Example encode_default :
  encode (JList [JDict [("props", JDict [("id", JStr "a-b"); ("children", JNull)])]]) 8
  = Ok "9933a0b9".
Proof. vm_compute. reflexivity. Qed.

(** ** C7: saving twice *)

Lemma is_positive_truthy (input : json) :
  is_positive input = Ok true → truthy input = true.
Proof.
  destruct input as [|b|z|r|s|l|d]; simpl; intros H; inv_ok; try done.
  - apply Z.ltb_lt in H. apply negb_true_iff, Z.eqb_neq. lia.
  - by apply andb_true_iff in H as [[H _]%andb_true_iff _].
Qed.

(** Skipping the patch when [update_components] is empty is what the
    rewriter does itself. *)
Lemma pre_save_patch_mapping (self : FileShare) (state : json) (kwargs : patches) :
  update_components self = mapping kwargs →
  pre_save_patch self state = update_component_state state None kwargs.
Proof. unfold pre_save_patch. intros ->. by destruct kwargs. Qed.

(** A [FileShare] as its constructor leaves it cannot store anything: a
    triggered save of a new state raises [TypeError]. *)
Lemma save_unset_field (self : FileShare) (state : json) (hash : string) :
  update_components self = unset_field →
  (FileShare_save self empty_fs (JInt 1) state hash).2 = Raise TypeError.
Proof. intros H. unfold FileShare_save, pre_save_patch. by rewrite H. Qed.




(** ** C1: the order of a save *)





(** ** C8: the lock window *)

(** C8, as the code has it.  A reload trigger with a truthy value locks and
    arms the single-shot timer (enabled, counter at 0 of 1); while locked, a
    paused callback returns [no_update] and does not call the function it
    wraps; when the timer fires with a count above 0 the flag is cleared and
    the timer is disabled with its counter set to 1, its limit, so that it is
    not armed; paused callbacks then call the wrapped function. *)
Theorem lock_window (self : DashShare) :
  (∀ trigger dis n,
     truthy trigger = true →
     locked (enable_interval_and_lock self trigger dis n).1 = true ∧
     (enable_interval_and_lock self trigger dis n).2 = (false, 0%Z) ∧
     armed (set_interval (make_interval self)
              (enable_interval_and_lock self trigger dis n).2) = true) ∧
  (∀ (A B : Type) (func : A → B) (args : A),
     locked self = true → pause_update func self args = no_update) ∧
  (∀ n,
     (0 < n)%Z →
     locked (unlock_after_interval_trigger self (Some n)).1 = false ∧
     (unlock_after_interval_trigger self (Some n)).2 = (true, 1%Z) ∧
     armed (set_interval (make_interval self)
              (unlock_after_interval_trigger self (Some n)).2) = false ∧
     ∀ (A B : Type) (func : A → B) (args : A),
       pause_update func (unlock_after_interval_trigger self (Some n)).1 args
       = output (func args)).
Proof.
  split_and!.
  - intros trigger dis n Ht. unfold enable_interval_and_lock. by rewrite Ht.
  - intros A B func args Hl. unfold pause_update. by rewrite Hl.
  - intros n Hn. unfold unlock_after_interval_trigger.
    apply Z.ltb_lt in Hn. by rewrite Hn.
Qed.

Lemma lock_window_witness :
  locked (enable_interval_and_lock (base graph_share) (JStr "?state=bf787612")
            true None).1 = true ∧
  pause_update (λ x : Z, (x + 1)%Z)
    (enable_interval_and_lock (base graph_share) (JStr "?state=bf787612") true None).1
    1%Z = no_update ∧
  pause_update (λ x : Z, (x + 1)%Z)
    (unlock_after_interval_trigger
       (enable_interval_and_lock (base graph_share) (JStr "?state=bf787612")
          true None).1 (Some 1%Z)).1
    1%Z = output 2%Z.
Proof.
  split_and!.
  - apply (proj1 (lock_window (base graph_share)) (JStr "?state=bf787612") true None).
    reflexivity.
  - apply (proj1 (proj2 (lock_window _))). reflexivity.
  - apply (proj2 (proj2 (lock_window _)) 1%Z). reflexivity.
Defined.

(** C8 as the specification words it fails in one point: when the timer
    fires, its counter is not reset; the callback writes 1 to it. *)
Lemma lock_window_counterexample :
  n_intervals (set_interval (make_interval (base graph_share))
                 (unlock_after_interval_trigger (base graph_share) (Some 1%Z)).2)
  = 1%Z ∧
  n_intervals (set_interval (make_interval (base graph_share))
                 (unlock_after_interval_trigger (base graph_share) (Some 1%Z)).2)
  ≠ n_intervals (make_interval (base graph_share)).
Proof. split; [reflexivity|discriminate]. Qed.

(** * Further properties of the code *)

(** ** [FileShare.save] and the store *)

(** X1.  [FileShare.save] never removes a stored file and never changes one:
    whatever its arguments and whether it returns or raises, every file that
    was stored is stored afterwards with the same document, and the only path
    that can be new is the one of the hash it was given.  When it returns, it
    returns its input. *)
Theorem save_keeps_records (self : FileShare) (fs : filesystem) (input state : json)
    (hash : string) :
  (∀ path doc, files fs !! path = Some doc →
     files (FileShare_save self fs input state hash).1 !! path = Some doc) ∧
  (∀ path, path ≠ share_path hash →
     files (FileShare_save self fs input state hash).1 !! path = files fs !! path) ∧
  (∀ r, (FileShare_save self fs input state hash).2 = Ok r → r = input).
Proof.
  assert (files (if share_dir fs then fs else mkdir_share fs) = files fs) as Hf
    by (by destruct (share_dir fs)).
  unfold FileShare_save. rewrite Hf.
  destruct (files fs !! share_path hash) as [old|] eqn:E; simpl.
  { rewrite Hf. split_and!; try done. by intros r [= <-]. }
  destruct (is_positive input) as [[]| |]; simpl;
    try (rewrite Hf; split_and!; try done; by intros r [= <-]).
  destruct (pre_save_patch self state); simpl;
    try (rewrite Hf; split_and!; done).
  rewrite Hf. split_and!.
  - intros path doc Hp. rewrite lookup_insert_ne; [done|]. by intros <-; simplify_eq.
  - intros path Hp. by rewrite lookup_insert_ne.
  - by intros r [= <-].
Qed.

(** X2.  A save event whose input is falsy (no click yet: [0], [None]) never
    changes the stored files, whatever the strategy's patch is; and when the
    callback returns, the dialog flag is handed back as it was and the link
    is empty. *)
Theorem save_without_click (urlparse : string → ParseResult)
    (on_server : option string) (self : FileShare) (fs : filesystem)
    (input state : json) (is_open : bool) (url : string) :
  truthy input = false →
  files (save_body urlparse on_server self (input, state, is_open, url) fs).1
  = files fs ∧
  ∀ out, (save_body urlparse on_server self (input, state, is_open, url) fs).2
         = Ok out → out = (input, is_open, "").
Proof.
  intros Hfalsy.
  assert (is_positive input ≠ Ok true) as Hpos.
  { intros H. apply is_positive_truthy in H. congruence. }
  assert (files (if share_dir fs then fs else mkdir_share fs) = files fs) as Hf
    by (by destruct (share_dir fs)).
  unfold save_body. destruct (encode state 8) as [h| |]; [|done..].
  simpl. unfold FileShare_save. rewrite Hf.
  destruct (files fs !! share_path h); simpl.
  { rewrite Hfalsy. simpl. split; [done|]. by intros out [= <-]. }
  destruct (is_positive input) as [[]| |]; simpl; try done.
  rewrite Hfalsy. simpl. split; [done|]. by intros out [= <-].
Qed.

Lemma save_without_click_witness :
  files (save_body local_urlparse None graph_share
           (JInt 0, graph_layout, false, "http://127.0.0.1:8050/") empty_fs).1
  = files empty_fs ∧
  ∀ out, (save_body local_urlparse None graph_share
            (JInt 0, graph_layout, false, "http://127.0.0.1:8050/") empty_fs).2
         = Ok out → out = (JInt 0, false, "").
Proof.
  apply (save_without_click local_urlparse None graph_share empty_fs (JInt 0)
           graph_layout false "http://127.0.0.1:8050/").
  reflexivity.
Defined.

(** ** The timer *)

(** X3.  The window can be opened again.  Whatever the timer's state is, also
    after it has fired and was disabled with its counter at its limit, a
    reload trigger writes [(False, 0)] to it and so arms it again (for a
    limit of at least one firing), truthy or not; and the timer callback
    called with no count or a count of 0 does not touch the lock flag and
    leaves the timer enabled. *)
Theorem timer_rearms (self : DashShare) (t : Interval) :
  (0 < max_intervals t)%Z →
  (∀ trigger dis n,
     armed (set_interval t (enable_interval_and_lock self trigger dis n).2) = true ∧
     locked (enable_interval_and_lock self trigger dis n).1 = truthy trigger) ∧
  (∀ n, (∀ k, n = Some k → (k ≤ 0)%Z) →
     locked (unlock_after_interval_trigger self n).1 = locked self ∧
     armed (set_interval t (unlock_after_interval_trigger self n).2) = true).
Proof.
  intros Hmax. apply Z.ltb_lt in Hmax. split.
  - intros trigger dis n. unfold enable_interval_and_lock, armed.
    by destruct (truthy trigger); simpl; rewrite Hmax.
  - intros n Hn. unfold unlock_after_interval_trigger, armed.
    destruct n as [k|]; simpl; [|by rewrite Hmax].
    specialize (Hn k eq_refl).
    assert ((0 <? k)%Z = false) as -> by (apply Z.ltb_ge; lia).
    simpl. by rewrite Hmax.
Qed.

Lemma timer_rearms_witness :
  armed (set_interval
           (set_interval (make_interval (base graph_share))
              (unlock_after_interval_trigger (base graph_share) (Some 1%Z)).2)
           (enable_interval_and_lock (base graph_share) (JStr "?state=bf787612")
              true (Some 1%Z)).2) = true.
Proof.
  apply (proj1 (timer_rearms (base graph_share)
           (set_interval (make_interval (base graph_share))
              (unlock_after_interval_trigger (base graph_share) (Some 1%Z)).2)
           eq_refl)).
Defined.

(** ** Patches that match nothing *)

Lemma dict_set_same {V} (d : list (string * V)) k v :
  dict_get k d = Some v → dict_set d k v = d.
Proof.
  induction d as [|[k' v'] d IH]; simpl; [done|].
  destruct (String.eqb k' k); intros H; [by simplify_eq|]. by rewrite IH.
Qed.

(** A normalized id holds no hyphen. *)
Lemma normalize_id_no_hyphen (s : string) :
  str_contains "-" (normalize_id s) = false.
Proof.
  unfold normalize_id. induction s as [|c s IH]; [done|]. cbn [str_replace].
  destruct (Ascii.eqb c "-") eqn:E;
    [change ("_" +:+ ?x) with (String "_" x)|];
    rewrite str_contains_char_cons, IH, orb_false_r.
  - by destruct (ascii_dec "-" "_").
  - destruct (ascii_dec "-" c) as [<-|]; [|done]. by rewrite Ascii.eqb_refl in E.
Qed.

(** So a patch set all of whose keys hold a hyphen has no patch for any id. *)
Lemma hyphen_keys_unmatched (P : patches) :
  forallb (λ kv, str_contains "-" kv.1) P = true →
  ∀ s, dict_get (normalize_id s) P = None.
Proof.
  intros HP s. induction P as [|[k patch] P IH]; simpl in *; [done|].
  apply andb_true_iff in HP as [Hk HP].
  destruct (String.eqb k (normalize_id s)) eqn:E; [|by apply IH].
  apply String.eqb_eq in E as ->. by rewrite normalize_id_no_hyphen in Hk.
Qed.

Lemma py_replace_dash_Ok (x : json) id :
  py_replace_dash x = Ok id → ∃ s, id = normalize_id s.
Proof. destruct x; simpl; intros; inv_ok. eauto. Qed.

Section Unmatched.
Variable rec : json → outcome json.
Variable P : patches.
Hypothesis unmatched : ∀ s, dict_get (normalize_id s) P = None.
Hypothesis rec_id : ∀ x r, rec x = Ok r → r = x.

Lemma update_item_unmatched (item item' : json) :
  update_item rec P item = Ok item' → item' = item.
Proof using unmatched rec_id.
  intros (it & props & props1 & id & -> & Hprops & Hch & Hid & ->)%update_item_Ok.
  apply py_replace_dash_Ok in Hid as [s ->]. rewrite unmatched.
  assert (props1 = props) as ->; [|by rewrite dict_set_same].
  destruct (dict_get "children" props) as [ch|] eqn:Hc; simpl in Hch; [|done].
  destruct ch as [| | | | |[|x l]|[|kv c]]; try done.
  - destruct Hch as (r & Hr & ->). apply rec_id in Hr as ->.
    by rewrite dict_set_same.
  - destruct Hch as (c' & Hc' & ->).
    apply update_dict_children_Ok in Hc' as (k & sub & r & _ & Hk & Hr & ->).
    apply rec_id in Hr as ->. rewrite (dict_set_same _ _ _ Hk).
    by rewrite dict_set_same.
Qed.

Lemma update_dict_unmatched (d : pydict) (r : json) :
  update_dict rec P d = Ok r → r = JDict d.
Proof using unmatched rec_id.
  intros (d1 & d2 & H1 & H2 & H3)%update_dict_Ok.
  assert (d1 = d) as ->.
  { destruct (dict_get "children" d) eqn:E; [|done].
    destruct H1 as (r1 & Hr1 & ->). apply rec_id in Hr1 as ->.
    by rewrite dict_set_same. }
  assert (d2 = d) as ->.
  { destruct (dict_get "props" d) eqn:E; [|done].
    destruct H2 as (r2 & Hr2 & ->). apply rec_id in Hr2 as ->.
    by rewrite dict_set_same. }
  destruct (dict_get "id" d); [|done].
  destruct H3 as (id & Hid & ->).
  apply py_replace_dash_Ok in Hid as [s ->]. by rewrite unmatched.
Qed.

Lemma update_body_unmatched (x r : json) :
  update_body rec P x None = Ok r → r = x.
Proof using unmatched rec_id.
  destruct x as [| | | | |l|d]; simpl; intros H; try by inv_ok.
  - apply bind_Ok in H as (l' & H & Hr). inv_ok.
    apply update_items_Ok in H as (items & -> & HF). simpl. f_equal.
    clear -HF unmatched rec_id.
    induction HF as [|x y l items Hxy _ IH]; [done|].
    apply update_item_unmatched in Hxy as ->. by rewrite IH.
  - by apply update_dict_unmatched.
Qed.
End Unmatched.

Lemma update_fuel_unmatched (P : patches) (fuel : nat) (x r : json) :
  (∀ s, dict_get (normalize_id s) P = None) →
  update_fuel fuel x None P = Ok r → r = x.
Proof.
  intros HP. revert x r. induction fuel as [|fuel IH]; intros x r H.
  - destruct P; simpl in H; by inv_ok.
  - destruct P as [|kv P]; [simpl in H; by inv_ok|].
    rewrite update_fuel_S in H by done.
    eapply update_body_unmatched; [exact HP| |exact H]. intros. by apply IH.
Qed.

(** X4.  A patch set that has no patch for any normalized id changes
    nothing: when the call returns, it returns the layout as it was.  Ids are
    looked up with their hyphens replaced, the keys of the patch set are taken
    as they are, so this is the case of every patch set whose keys all hold a
    hyphen. *)
Theorem unmatched_patches_identity (T R : json) (P : patches) :
  (∀ s, dict_get (normalize_id s) P = None) →
  update_component_state T None P = Ok R → R = T.
Proof. intros HP H. by eapply update_fuel_unmatched. Qed.

Lemma unmatched_patches_identity_witness :
  update_component_state modal_layout None [("save-modal", [("is_open", JBool false)])]
  = Ok modal_layout ∧ modal_layout = modal_layout.
Proof.
  split; [reflexivity|].
  apply (unmatched_patches_identity modal_layout modal_layout
           [("save-modal", [("is_open", JBool false)])]).
  - by apply hyphen_keys_unmatched.
  - reflexivity.
Defined.

(** ** [FileShare.load] *)

(** X5.  [FileShare.load] patches the document it has read with
    [{self.modal_id: {"is_open": False}}].  The key is the modal's id as it
    is, so when that id holds a hyphen, as the default ["save-modal"] does,
    the patch matches nothing: whenever [load] returns for a stored
    fingerprint, it returns the stored document unchanged, the dialog as open
    as it was stored. *)
Theorem load_keeps_modal (self : FileShare) (fs : filesystem) (input h : string)
    (state doc r : json) :
  str_contains "-" (modal_id (base self)) = true →
  requested_fingerprint input = Some h →
  files fs !! share_path h = Some doc →
  FileShare_load self fs (JStr input) state = Ok r →
  r = doc.
Proof.
  unfold requested_fingerprint, FileShare_load. intros Hid Hq Hfile.
  destruct (parse_query_string input) as [q| |]; [|done..]. simpl.
  rewrite Hq.
  destruct (open_rb_stored_cases _ _ _ Hfile) as [->| [->| ->]]; [|done..].
  apply update_fuel_unmatched.
  apply hyphen_keys_unmatched. simpl. by rewrite Hid.
Qed.

Lemma load_keeps_modal_witness :
  FileShare_load graph_share
    {| share_dir := true; files := {[ share_path "9933a0b9" := modal_layout ]} |}
    (JStr "?state=9933a0b9") sample_layout = Ok modal_layout ∧
  modal_layout = modal_layout.
Proof.
  split; [reflexivity|].
  apply (load_keeps_modal graph_share
           {| share_dir := true; files := {[ share_path "9933a0b9" := modal_layout ]} |}
           "?state=9933a0b9" "9933a0b9" sample_layout modal_layout modal_layout);
    reflexivity.
Defined.

(** ** The characters of a fingerprint *)

(** X6.  A fingerprint holds nothing but the characters [0-9a-f], whatever
    the state and the length asked for: none of the characters [/ ? & = + %]
    can occur in the file name or in the query of the link. *)
Theorem fingerprint_is_hex (state : json) (n : Z) (h : string) :
  encode state n = Ok h → str_forall is_hex_char h = true.
Proof. apply encode_hex. Qed.

Lemma fingerprint_is_hex_witness :
  str_forall is_hex_char "bf787612" = true.
Proof. apply (fingerprint_is_hex graph_layout 8). by vm_compute. Defined.

(** X7.  For [n] of -1, 0 or 1 the fingerprint is the empty string whatever
    the state is: [int(n / 2)] is 0 and no byte of the digest is asked for.
    All states then share the one file [./share/.json]. *)
Theorem fingerprint_empty (state : json) (n : Z) :
  (-1 ≤ n ≤ 1)%Z → encode state n = Ok "" ∧ share_path "" = "./share/.json".
Proof.
  intros Hn. split; [|done].
  assert (n = -1 ∨ n = 0 ∨ n = 1)%Z as [->|[->| ->]] by lia; reflexivity.
Qed.

Lemma fingerprint_empty_witness :
  encode sample_layout 1 = Ok "" ∧ share_path "" = "./share/.json".
Proof. apply (fingerprint_empty sample_layout 1). lia. Defined.

(** ** The query of a share link *)

(** A string without the character is left alone by [replace], is one piece
    for [split], and does not contain it. *)
Lemma str_replace_absent (c : ascii) (new s : string) :
  str_forall (λ x, negb (Ascii.eqb x c)) s = true → str_replace c new s = s.
Proof.
  induction s as [|x s IH]; [done|]. simpl.
  intros [Hx Hs]%andb_true_iff. apply negb_true_iff in Hx. by rewrite Hx, IH.
Qed.

Lemma query_safe_absent (c : ascii) (s : string) :
  c ∈ ["?"; "&"; "="; "+"; "%"]%char →
  str_forall query_safe s = true →
  str_forall (λ x, negb (Ascii.eqb x c)) s = true.
Proof.
  intros Hc. apply str_forall_impl. intros x Hx. unfold query_safe in Hx.
  apply negb_true_iff in Hx. apply negb_true_iff.
  destruct (Ascii.eqb x c) eqn:E; [|done]. apply Ascii.eqb_eq in E as ->.
  rewrite <- Hx. symmetry. apply existsb_exists. exists c.
  split; [by apply list_elem_of_In|apply Ascii.eqb_refl].
Qed.


Lemma parse_state_query (h : string) :
  h ≠ "" → str_forall query_safe h = true →
  parse_query_string ("?state=" +:+ h) = Ok [("state", h)].
Proof.
  intros Hne Hsafe. unfold parse_query_string.
  rewrite !append_cons, append_nil.
  assert (str_replace "?"%char "" h = h) as Hq
    by (apply str_replace_absent, query_safe_absent; [set_solver|done]).
  assert (str_replace "+"%char " " h = h) as Hplus
    by (apply str_replace_absent, query_safe_absent; [set_solver|done]).
  assert (str_split "&"%char h = [h]) as Hamp
    by (apply str_split_absent, query_safe_absent; [set_solver|done]).
  assert (unquote h = h) as Hunq.
  { unfold unquote. rewrite str_contains_absent; [done|].
    apply query_safe_absent; [set_solver|done]. }
  assert (String.eqb h "" = false) as Hempty by (by apply String.eqb_neq).
  cbn [str_replace Ascii.eqb Bool.eqb]. rewrite append_nil, Hq.
  unfold parse_qs, parse_qsl. cbn [str_split Ascii.eqb Bool.eqb]. rewrite Hamp.
  cbn [omap list_omap str_split1 Ascii.eqb Bool.eqb]. rewrite Hempty, Hplus, Hunq.
  reflexivity.
Qed.

(** X8.  The query [?state=<h>] is read back as [{"state": h}], for every
    non-empty [h] free of the characters [? & = + %]: nothing of it is
    split off, decoded or dropped. *)
Theorem query_of_fingerprint (h : string) :
  h ≠ "" → str_forall query_safe h = true →
  parse_query_string ("?state=" +:+ h) = Ok [("state", h)].
Proof. apply parse_state_query. Qed.

Lemma query_of_fingerprint_witness :
  parse_query_string ("?state=" +:+ "bf787612") = Ok [("state", "bf787612")].
Proof. apply (query_of_fingerprint "bf787612"); [discriminate|reflexivity]. Defined.

(** ** From a save to the load of its link *)






(** ** Items the loop cannot take *)

(** X10.  What the loop over a sequence raises on an item it cannot take,
    the items before it being accepted and the patch set not empty: an item
    that is not a dictionary (a text or a number among the children) raises
    [TypeError]; a dictionary without [props] raises [KeyError]; [props] that
    are not a dictionary raise [AttributeError]; and so does an id that is
    not a string (a pattern-matching id), here for an item without nested
    children. *)
Theorem sequence_item_errors (P : patches) (pre pre' post : list json) (item : json) :
  P ≠ [] →
  update_component_state (JList pre) None P = Ok (JList pre') →
  (is_dict item = false →
   update_component_state (JList (pre ++ item :: post)) None P = Raise TypeError) ∧
  (∀ it, item = JDict it → dict_get "props" it = None →
   update_component_state (JList (pre ++ item :: post)) None P = Raise KeyError) ∧
  (∀ it p, item = JDict it → dict_get "props" it = Some p → is_dict p = false →
   update_component_state (JList (pre ++ item :: post)) None P
   = Raise AttributeError) ∧
  (∀ it props id,
     item = JDict it → dict_get "props" it = Some (JDict props) →
     is_nested (default JNull (dict_get "children" props)) = false →
     dict_get "id" props = Some id → is_str id = false →
     update_component_state (JList (pre ++ item :: post)) None P
     = Raise AttributeError).
Proof.
  intros HP Hpre. rewrite (update_sequence_at _ _ _ _ _ HP Hpre). split_and!.
  - intros Hd. by destruct item.
  - intros it -> Hprops. unfold update_item, item_props. by rewrite Hprops.
  - intros it p -> Hprops Hp. unfold update_item, item_props. rewrite Hprops.
    by destruct p.
  - intros it props id -> Hprops Hch Hid Hstr.
    unfold update_item, item_props. rewrite Hprops.
    cbn [mbind outcome_mbind outcome_bind].
    destruct (default JNull (dict_get "children" props)) as [| | | | |[|??]|[|??]];
      try discriminate Hch; cbn [mbind outcome_mbind outcome_bind];
      unfold patch_item; rewrite Hid; by destruct id.
Qed.

Lemma sequence_item_errors_witness :
  update_component_state
    (JList ([component "B" [("children", JStr "bold")]] ++ JStr "Hello" :: []))
    None sample_patches = Raise TypeError.
Proof.
  apply (proj1 (sequence_item_errors sample_patches
                  [component "B" [("children", JStr "bold")]]
                  [component "B" [("children", JStr "bold")]] [] (JStr "Hello")
                  ltac:(discriminate) eq_refl)).
  reflexivity.
Defined.

(** ** What a matched item holds afterwards *)

(** An item of a sequence whose id has a patch, after the call. *)
Lemma update_list_item_matched (P : patches) (s : string) (patch : pydict)
    (l : list json) (i : nat) (it props : pydict) (R : json) :
  dict_get (normalize_id s) P = Some patch →
  l !! i = Some (JDict it) →
  dict_get "props" it = Some (JDict props) →
  dict_get "id" props = Some (JStr s) →
  update_component_state (JList l) None P = Ok R →
  ∃ l' props1,
    R = JList l' ∧
    l' !! i = Some (JDict (dict_set it "props" (JDict (dict_update props1 patch)))) ∧
    ∀ k, k ≠ "children" → dict_get k props1 = dict_get k props.
Proof.
  intros HP Hi Hprops Hid H. assert (P ≠ []) as Hne by (by intros ->).
  rewrite update_component_state_unfold in H by done. simpl in H.
  apply bind_Ok in H as (l' & H & HR). inv_ok.
  apply update_items_Ok in H as (items & -> & HF). simpl.
  destruct (Forall2_lookup_l _ _ _ _ _ HF Hi) as (y & Hy & Hitem).
  apply update_item_Ok in Hitem
    as (it0 & props0 & props1 & id & Hit & Hprops0 & Hch & Hid1 & ->).
  injection Hit as <-. rewrite Hprops in Hprops0. injection Hprops0 as <-.
  pose proof (update_item_props_other _ _ _ Hch) as Hother.
  rewrite Hother, Hid in Hid1 by done. simpl in Hid1. inv_ok.
  rewrite HP in Hy. by exists items, props1.
Qed.

(** X11.  The merge is shallow and the patch comes last.  After a call that
    returns, an item whose id has a patch (with distinct keys, as a Python
    dictionary has) holds under every key of the patch the patch's value,
    under [children] too, so that the patch of a parent overrides what the
    patches of its descendants rewrote; under every other key except
    [children] it holds what it held. *)
Theorem patch_entries_applied (P : patches) (s : string) (patch : pydict)
    (l : list json) (i : nat) (it props : pydict) (R : json) :
  NoDup patch.*1 →
  dict_get (normalize_id s) P = Some patch →
  l !! i = Some (JDict it) →
  dict_get "props" it = Some (JDict props) →
  dict_get "id" props = Some (JStr s) →
  update_component_state (JList l) None P = Ok R →
  (∀ k v, dict_get k patch = Some v →
          get_path [Index i; Key "props"; Key k] R = Some v) ∧
  (∀ k, dict_contains k patch = false → k ≠ "children" →
        get_path [Index i; Key "props"; Key k] R = dict_get k props).
Proof.
  intros Hnd HP Hi Hprops Hid H.
  destruct (update_list_item_matched _ _ _ _ _ _ _ _ HP Hi Hprops Hid H)
    as (l' & props1 & -> & Hl' & Hother).
  split.
  - intros k v Hk. simpl. rewrite Hl', dict_get_set_eq.
    by rewrite (dict_get_update_in _ _ _ _ Hnd Hk).
  - intros k Hk Hne. simpl. rewrite Hl', dict_get_set_eq.
    rewrite dict_get_update_other, Hother by done. by destruct (dict_get k props).
Qed.

Lemma patch_entries_applied_witness :
  get_path [Index 0; Key "props"; Key "children"]
    (JList [component "Div"
              [("id", JStr "outer"); ("children", JStr "replaced")];
            component "P" [("children", JStr "other")]])
  = Some (JStr "replaced").
Proof.
  apply (proj1 (patch_entries_applied
                  [("outer", [("children", JStr "replaced")]);
                   ("inner", [("children", JStr "lost")])]
                  "outer" [("children", JStr "replaced")]
                  [component "Div"
                     [("id", JStr "outer");
                      ("children", JList [component "P" [("id", JStr "inner");
                                                         ("children", JStr "x")]])];
                   component "P" [("children", JStr "other")]]
                  0 _ _ _
                  ltac:(repeat constructor; set_solver)
                  eq_refl eq_refl eq_refl eq_refl eq_refl)).
  reflexivity.
Defined.

(** ** [modify.py] and [share.py] *)

Section Agreement.
Variable recM : list json → outcome (list json).
Variable recS : json → outcome json.
Variable P : patches.
Hypothesis rec_agree :
  ∀ l, Forall plain_item l → recS (JList l) = r ← recM l; Ok (JList r).

Lemma update_item_plain (item : json) :
  plain_item item → Modify.update_item recM P item = update_item recS P item.
Proof using rec_agree.
  intros Hplain. destruct Hplain as [it props Hprops Hdict Hlist Hid].
  unfold Modify.update_item, update_item, item_props. rewrite Hprops.
  cbn [mbind outcome_mbind outcome_bind].
  assert (∀ props1 : pydict,
            dict_get "id" props1 = dict_get "id" props →
            (patch ← Modify.lookup_patch P (default (JStr "") (dict_get "id" props1));
             match patch with
             | None => Ok (JDict (dict_set it "props" (JDict props1)))
             | Some patch =>
                 Ok (JDict (dict_set it "props" (JDict (dict_update props1 patch))))
             end) = patch_item P it props1) as Hpatch.
  { intros props1 E. unfold patch_item. rewrite E.
    destruct (dict_get "id" props) as [id|] eqn:Eid; simpl.
    - destruct (Hid id eq_refl) as (s & -> & Hs). simpl. rewrite Hs.
      by destruct (dict_get s P).
    - by replace (normalize_id "") with "" by reflexivity. }
  destruct (dict_get "children" props) as [ch|] eqn:Hch; simpl; [|by apply Hpatch].
  destruct ch as [| | | | |[|x l]|[|kv c]]; simpl; try by apply Hpatch.
  - rewrite rec_agree by (by apply Hlist).
    destruct (recM (x :: l)) as [r| |]; simpl; [|done..].
    apply Hpatch. by rewrite dict_get_set_ne.
  - by specialize (Hdict _ eq_refl).
Qed.

Lemma update_items_plain (l updated : list json) :
  Forall plain_item l →
  Modify.update_items recM P l updated = update_items recS P l updated.
Proof using rec_agree.
  intros Hl. revert updated. induction Hl as [|x l Hx _ IH]; intros updated; [done|].
  simpl. rewrite (update_item_plain _ Hx).
  destruct (update_item recS P x); simpl; [apply IH|done..].
Qed.
End Agreement.

Lemma update_fuel_plain (P : patches) (fuel : nat) (l : list json)
    (updated : option (list json)) :
  P ≠ [] → Forall plain_item l →
  update_fuel fuel (JList l) updated P =
  r ← Modify.update_fuel fuel l (default [] updated) P; Ok (JList r).
Proof.
  intros HP. revert l updated. induction fuel as [|fuel IH]; intros l updated Hl.
  - by destruct P.
  - rewrite update_fuel_S by done. cbn [update_body Modify.update_fuel].
    by rewrite (update_items_plain _ (λ x, update_fuel fuel x None P) P
                  (λ l Hl, IH l None Hl)).
Qed.

(** X12.  On a plain layout (a sequence of components with dictionary props,
    no dictionary-valued children, string ids without hyphen, and plain
    sequences as list-valued children) and a non-empty patch set, the
    rewriter of [modify.py] and the one of [share.py] give the same result:
    what [share.py] adds is the fast path, the normalizing of ids and the
    dictionary shapes. *)
Theorem modify_agrees (l : list json) (P : patches) :
  P ≠ [] → Forall plain_item l →
  Modify.update_component_state (JList l) None P
  = update_component_state (JList l) None P.
Proof.
  intros HP Hl. unfold update_component_state, Modify.update_component_state.
  by rewrite update_fuel_plain.
Qed.

Ltac plain_items :=
  repeat first
    [ apply Forall_nil_2
    | apply Forall_cons_2
    | eapply plain_item_intro;
      [ reflexivity
      | intros ? [=]
      | intros ? [=]; try subst
      | intros ? [=]; try subst; eexists; split; reflexivity ] ].

Lemma modify_agrees_witness :
  Modify.update_component_state
    (JList [component "Div"
              [("id", JStr "outer");
               ("children", JList [component "P" [("id", JStr "test1");
                                                  ("children", JStr "x")]])];
            component "P" [("children", JStr "other")]])
    None sample_patches
  = update_component_state
      (JList [component "Div"
                [("id", JStr "outer");
                 ("children", JList [component "P" [("id", JStr "test1");
                                                    ("children", JStr "x")]])];
              component "P" [("children", JStr "other")]])
      None sample_patches.
Proof.
  apply (modify_agrees _ sample_patches); [discriminate|]. plain_items.
Defined.

(** The loop of [modify.py], like the one of [share.py], appends one item
    per item. *)
Lemma modify_update_items_Ok rec kwargs (layout updated result : list json) :
  Modify.update_items rec kwargs layout updated = Ok result →
  ∃ items, result = updated ++ items ∧
           Forall2 (λ x y, Modify.update_item rec kwargs x = Ok y) layout items.
Proof.
  revert updated. induction layout as [|item rest IH]; intros updated H; simpl in H.
  - inv_ok. exists []. by rewrite app_nil_r.
  - inv_ok. apply IH in H as (items & -> & HF).
    eexists (_ :: items). rewrite <- app_assoc. split; [done|]. by constructor.
Qed.

Lemma modify_update_item_Ok rec (P : patches) (it props : pydict) (y : json) :
  dict_get "props" it = Some (JDict props) →
  Modify.update_item rec P (JDict it) = Ok y →
  ∃ props1 patch,
    (∀ k, k ≠ "children" → dict_get k props1 = dict_get k props) ∧
    (match dict_get "children" props with
     | Some (JList (_ :: _)) => True
     | _ => props1 = props
     end) ∧
    Modify.lookup_patch P (default (JStr "") (dict_get "id" props)) = Ok patch ∧
    y = JDict (dict_set it "props"
                 (JDict (match patch with
                         | Some patch => dict_update props1 patch
                         | None => props1
                         end))).
Proof.
  intros Hprops H. unfold Modify.update_item, item_props in H.
  rewrite Hprops in H. cbn [mbind outcome_mbind outcome_bind] in H.
  apply bind_Ok in H as (props1 & Hch & H).
  apply bind_Ok in H as (patch & Hpatch & H).
  assert ((∀ k, k ≠ "children" → dict_get k props1 = dict_get k props) ∧
          match dict_get "children" props with
          | Some (JList (_ :: _)) => True
          | _ => props1 = props
          end) as [Hother Hsame].
  { destruct (dict_get "children" props) as [ch|]; simpl in Hch; [|by inv_ok].
    destruct ch as [| | | | |[|x l]|?]; simpl in Hch; inv_ok; try done.
    split; [|done]. intros k Hk. by rewrite dict_get_set_ne. }
  rewrite Hother in Hpatch by done.
  exists props1, patch. split_and!; [done..|]. destruct patch; by inv_ok.
Qed.

Lemma modify_list_item (P : patches) (l : list json) (i : nat)
    (it props : pydict) (R : json) :
  l !! i = Some (JDict it) →
  dict_get "props" it = Some (JDict props) →
  Modify.update_component_state (JList l) None P = Ok R →
  ∃ l' y, R = JList l' ∧ l' !! i = Some y ∧
          ∃ rec, Modify.update_item rec P (JDict it) = Ok y.
Proof.
  intros Hi Hprops H. unfold Modify.update_component_state in H.
  apply bind_Ok in H as (l' & H & HR). inv_ok.
  cbn [Modify.update_fuel] in H.
  apply modify_update_items_Ok in H as (items & -> & HF).
  destruct (Forall2_lookup_l _ _ _ _ _ HF Hi) as (y & Hy & Hitem).
  exists items, y. split_and!; [done..|]. eauto.
Qed.

(** The fuel of [Modify.update_component_state] is enough. *)
Lemma modify_update_fuel_returns (P : patches) (fuel : nat) (l updated : list json) :
  Forall (λ x, json_depth x ≤ fuel) l →
  Modify.update_fuel (S fuel) l updated P ≠ OutOfFuel.
Proof.
  revert l updated. induction fuel as [fuel IH] using lt_wf_ind.
  intros l updated Hl. cbn [Modify.update_fuel].
  revert updated. induction Hl as [|x l Hx _ IHl]; intros updated; [done|].
  cbn [Modify.update_items].
  assert (Modify.update_item (λ l, Modify.update_fuel fuel l [] P) P x ≠ OutOfFuel)
    as Hitem.
  { unfold Modify.update_item, item_props.
    destruct x as [| | | | |?|it]; try done.
    destruct (dict_get "props" it) as [props|] eqn:Hprops; [|done].
    pose proof (json_depth_entry _ _ _ Hprops) as Hlt.
    cbn [mbind outcome_mbind outcome_bind].
    destruct props as [| | | | |?|props]; try done.
    assert (∀ props1 : pydict,
              (patch ← Modify.lookup_patch P
                         (default (JStr "") (dict_get "id" props1));
               match patch with
               | None => Ok (JDict (dict_set it "props" (JDict props1)))
               | Some patch =>
                   Ok (JDict (dict_set it "props"
                                (JDict (dict_update props1 patch))))
               end) ≠ OutOfFuel) as Hpatch.
    { intros props1.
      destruct (default (JStr "") (dict_get "id" props1)) as [| | | |s|?|?];
        simpl; try done.
      by destruct (dict_get s P). }
    destruct (dict_get "children" props) as [ch|] eqn:Hch; simpl; [|apply Hpatch].
    pose proof (json_depth_entry _ _ _ Hch) as Hlt'.
    destruct ch as [| | | | |[|c cl]|?]; simpl; try apply Hpatch.
    destruct fuel as [|fuel']; [lia|].
    assert (Modify.update_fuel (S fuel') (c :: cl) [] P ≠ OutOfFuel) as Hrec.
    { apply IH; [lia|]. apply Forall_forall. intros z Hz.
      assert (json_depth z < json_depth (JList (c :: cl))); [|lia].
      clear -Hz. induction Hz as [z r|z w r _ IHr].
      - apply json_depth_cons.
      - pose proof (json_depth_cons w r). lia. }
    destruct (Modify.update_fuel (S fuel') (c :: cl) [] P); simpl;
      [apply Hpatch|done..]. }
  destruct (Modify.update_item _ P x); simpl; [apply IHl|done..].
Qed.

Lemma modify_returns (x : json) (updated : option (list json)) (P : patches) :
  Modify.update_component_state x updated P ≠ OutOfFuel.
Proof.
  unfold Modify.update_component_state.
  destruct x as [| | | |s|l|d]; try done.
  - by destruct s.
  - assert (Modify.update_fuel (S (json_depth (JList l))) l (default [] updated) P
            ≠ OutOfFuel) as H.
    { apply modify_update_fuel_returns. apply Forall_forall. intros z Hz.
      assert (json_depth z < json_depth (JList l)); [|lia].
      clear -Hz. induction Hz as [z r|z w r _ IHr].
      - apply json_depth_cons.
      - pose proof (json_depth_cons w r). lia. }
    by destruct (Modify.update_fuel _ l _ P).
  - by destruct d.
Qed.

(** X13.  [modify.py] looks an id up as it is written.  After a call that
    returns, an item of the sequence whose id [s] is itself a key of the
    patch set (a hyphen in it or not, where [share.py] would look up
    [s] with [_] for [-]) holds under every key of the patch the patch's
    value, and under every other key except [children] what it held. *)
Theorem modify_literal_id (P : patches) (s : string) (patch : pydict)
    (l : list json) (i : nat) (it props : pydict) (R : json) :
  NoDup patch.*1 →
  dict_get s P = Some patch →
  l !! i = Some (JDict it) →
  dict_get "props" it = Some (JDict props) →
  dict_get "id" props = Some (JStr s) →
  Modify.update_component_state (JList l) None P = Ok R →
  (∀ k v, dict_get k patch = Some v →
          get_path [Index i; Key "props"; Key k] R = Some v) ∧
  (∀ k, dict_contains k patch = false → k ≠ "children" →
        get_path [Index i; Key "props"; Key k] R = dict_get k props).
Proof.
  intros Hnd HP Hi Hprops Hid H.
  destruct (modify_list_item _ _ _ _ _ _ Hi Hprops H)
    as (l' & y & -> & Hy & rec & Hitem).
  apply (modify_update_item_Ok _ _ _ _ _ Hprops) in Hitem
    as (props1 & patch' & Hother & _ & Hlook & ->).
  rewrite Hid in Hlook. simpl in Hlook. rewrite HP in Hlook. inv_ok.
  split.
  - intros k v Hk. simpl. rewrite Hy, dict_get_set_eq.
    by rewrite (dict_get_update_in _ _ _ _ Hnd Hk).
  - intros k Hk Hne. simpl. rewrite Hy, dict_get_set_eq.
    rewrite dict_get_update_other, Hother by done. by destruct (dict_get k props).
Qed.

Lemma modify_literal_id_witness :
  get_path [Index 0; Key "props"; Key "value"]
    (JList [component "Dropdown"
              [("value", JStr "France"); ("id", JStr "dropdown-selection")]])
  = Some (JStr "France").
Proof.
  apply (proj1 (modify_literal_id
                  [("dropdown-selection", [("value", JStr "France")])]
                  "dropdown-selection" [("value", JStr "France")]
                  [component "Dropdown"
                     [("value", JStr "Canada"); ("id", JStr "dropdown-selection")]]
                  0 _ _ _
                  ltac:(repeat constructor; set_solver)
                  eq_refl eq_refl eq_refl eq_refl eq_refl)
          "value" (JStr "France") eq_refl).
Defined.

(** X14.  [modify.py] descends into list children only.  After a call that
    returns, an item of the sequence whose children are one component (a
    dictionary) and whose own id has no patch is the item that was given:
    nothing below it is patched, where [share.py] rewrites the child. *)
Theorem modify_keeps_single_child (P : patches) (l : list json) (i : nat)
    (it props c : pydict) (R : json) :
  l !! i = Some (JDict it) →
  dict_get "props" it = Some (JDict props) →
  dict_get "children" props = Some (JDict c) →
  Modify.lookup_patch P (default (JStr "") (dict_get "id" props)) = Ok None →
  Modify.update_component_state (JList l) None P = Ok R →
  get_path [Index i] R = Some (JDict it).
Proof.
  intros Hi Hprops Hch Hid H.
  destruct (modify_list_item _ _ _ _ _ _ Hi Hprops H)
    as (l' & y & -> & Hy & rec & Hitem).
  apply (modify_update_item_Ok _ _ _ _ _ Hprops) in Hitem
    as (props1 & patch' & _ & Hsame & Hlook & ->).
  rewrite Hch in Hsame. subst props1. rewrite Hid in Hlook. inv_ok.
  simpl. rewrite Hy. by rewrite (dict_set_same _ _ _ Hprops).
Qed.

Lemma modify_keeps_single_child_witness :
  get_path [Index 0]
    (JList [component "Div"
              [("children", component "P" [("id", JStr "test1");
                                           ("children", JStr "x")])]])
  = Some (component "Div"
            [("children", component "P" [("id", JStr "test1");
                                         ("children", JStr "x")])])
  ∧ update_component_state
      (JList [component "Div"
                [("children", component "P" [("id", JStr "test1");
                                             ("children", JStr "x")])]])
      None sample_patches
    = Ok (JList [component "Div"
                   [("children", component "P" [("id", JStr "test1");
                                                ("children", JStr "it worked!!!")])]]).
Proof.
  split; [|reflexivity].
  apply (modify_keeps_single_child sample_patches
           [component "Div"
              [("children", component "P" [("id", JStr "test1");
                                           ("children", JStr "x")])]]
           0 _ _ _ _ eq_refl eq_refl eq_refl eq_refl eq_refl).
Defined.

(** ** Fingerprints of different lengths *)

Lemma squeeze_more (m n : nat) (st : list Z) :
  m ≤ n → ∃ rest, Keccak.squeeze n st = Keccak.squeeze m st ++ rest.
Proof.
  revert n st. induction m as [|m IH]; intros n st Hmn; [by eexists|].
  destruct n as [|n]; [lia|]. cbn [Keccak.squeeze].
  destruct (IH n (Keccak.keccak_f st)) as (rest & ->); [lia|].
  exists rest. by rewrite app_assoc.
Qed.

(** SHAKE128 is an extendable-output function: a shorter digest is the start
    of a longer one. *)
Lemma shake_128_take (msg : list Z) (k k' : nat) :
  k ≤ k' → Keccak.shake_128 msg k = take k (Keccak.shake_128 msg k').
Proof.
  intros Hk. unfold Keccak.shake_128.
  set (st := Keccak.absorb _ _ _).
  assert (k / Keccak.rate ≤ k' / Keccak.rate) as Hb.
  { apply Nat.Div0.div_le_mono. lia. }
  destruct (squeeze_more (S (k / Keccak.rate)) (S (k' / Keccak.rate)) st)
    as (rest & ->); [lia|].
  rewrite take_take, Nat.min_l by done.
  rewrite take_app_le; [done|].
  rewrite squeeze_length.
  pose proof (Nat.div_mod_eq k Keccak.rate) as Hdm.
  assert (k mod Keccak.rate < Keccak.rate) by (apply Nat.mod_upper_bound; done).
  lia.
Qed.

Lemma hex_of_bytes_app (a b : list Z) :
  hex_of_bytes (a ++ b) = hex_of_bytes a +:+ hex_of_bytes b.
Proof.
  induction a as [|x a IH]; [done|]. simpl app. unfold hex_of_bytes in *.
  cbn [foldr]. by rewrite IH, !append_cons.
Qed.

Lemma encode_small (state : json) (n : Z) :
  (0 ≤ n < 2 ^ 53)%Z →
  encode state n =
  Ok (hex_of_bytes (Keccak.shake_128 (bytes_of_string (dumps state))
                      (Z.to_nat (n / 2)))).
Proof.
  intros Hn. unfold encode. rewrite int_half_small by done.
  cbn [mbind outcome_mbind outcome_bind]. unfold shake_128_hexdigest.
  assert (0 ≤ n / 2 < 2 ^ 53)%Z as Hk.
  { split; [apply Z.div_pos; lia|]. apply Z.div_lt_upper_bound; lia. }
  assert ((n / 2 <? 0)%Z = false) as -> by (apply Z.ltb_ge; lia).
  assert ((2 ^ 63 <=? n / 2)%Z = false) as ->; [|done].
  apply Z.leb_gt. eapply Z.lt_trans; [apply Hk|done].
Qed.

(** X15.  A shorter fingerprint of a state is the start of every longer one
    of the same state: asking for [n] characters and then for [m >= n]
    gives two strings of which the first is a prefix of the second.  So two
    states whose fingerprints are equal at one length have equal
    fingerprints at every shorter length. *)
Theorem fingerprint_prefix (state : json) (n m : Z) :
  (0 ≤ n)%Z → (n ≤ m)%Z → (m < 2 ^ 53)%Z →
  ∃ h t, encode state n = Ok h ∧ encode state m = Ok (h +:+ t).
Proof.
  intros Hn Hnm Hm. rewrite !encode_small by lia.
  set (msg := bytes_of_string (dumps state)).
  assert (Z.to_nat (n / 2) ≤ Z.to_nat (m / 2)) as Hk.
  { apply Z2Nat.inj_le; [apply Z.div_pos; lia..|]. apply Z.div_le_mono; lia. }
  exists (hex_of_bytes (Keccak.shake_128 msg (Z.to_nat (n / 2)))),
         (hex_of_bytes (drop (Z.to_nat (n / 2))
                          (Keccak.shake_128 msg (Z.to_nat (m / 2))))).
  split; [done|]. rewrite <- hex_of_bytes_app.
  by rewrite (shake_128_take msg _ _ Hk), take_drop.
Qed.

Lemma fingerprint_prefix_witness :
  ∃ h t, encode sample_layout 4 = Ok h ∧ encode sample_layout 8 = Ok (h +:+ t).
Proof. apply (fingerprint_prefix sample_layout 4 8); lia. Defined.

(** ** The strategy of the example application *)

(** X16.  [FileShare2] of the example application does not catch a missing
    file: its [load], called with the query [?state=h] of a link whose name
    can be a file's (no NUL byte, no [/], at most 250 bytes) and has no
    record, [./share] not being a file itself, raises [FileNotFoundError],
    where [FileShare.load] returns the current state. *)
Theorem example_load_missing (self : Example.FileShare2) (fs : filesystem)
    (h : string) (current : json) :
  h ≠ "" → str_forall query_safe h = true → file_name h = true →
  files fs !! share_path h = None →
  files fs !! "./share" = None →
  Example.FileShare2_load self fs (JStr ("?state=" +:+ h)) current
  = Raise FileNotFoundError.
Proof.
  intros Hne Hsafe Hname Hfile Hshare. unfold Example.FileShare2_load.
  change (Example.parse_query_string ("?state=" +:+ h))
    with (parse_query_string ("?state=" +:+ h)).
  rewrite parse_state_query by done.
  cbn [mbind outcome_mbind outcome_bind].
  change (dict_get "state" [("state", h)]) with (Some h). cbv beta iota.
  by rewrite open_rb_missing.
Qed.

Lemma example_load_missing_witness :
  Example.FileShare2_load Example.share empty_fs (JStr "?state=bf787612") graph_layout
  = Raise FileNotFoundError.
Proof.
  apply (example_load_missing Example.share empty_fs "bf787612" graph_layout);
    [discriminate|reflexivity..].
Defined.


